(** * wikimark redirector: a shallow embedding of [redirector/main.js]

    The page script resolves the subdomain of the requested host to a
    Wikidata item's official website: it builds a SPARQL query, turns the
    result rows into a table of entities, an object keyed by entity URI,
    and redirects the browser to the first website of the first entity
    that the object enumerates.

    Conventions of the embedding.
    - JavaScript strings are [string]s, sequences of 8-bit characters.  On
      ASCII characters [toUpperCase], [toLowerCase] and the matcher of
      regular expressions do what JavaScript does.  The case mappings leave
      every other character as it is, which JavaScript does not: what is
      said of them beyond their mere application is said of ASCII strings
      ([Str.isAscii]).  What the program changes the case of is ASCII: a
      token taken from the host name, and [Q] followed by digits.
    - A function that can throw returns [option]; [None] is the exception.
    - An object used as a map ([entities], the table of rank codes) is the
      list of its own properties in creation order, read the way
      JavaScript reads an object literal: [in] and property access also
      see the properties of [Object.prototype], and [Object.entries]
      lists the properties named by array indices first, in ascending
      numeric order, and the others after them in creation order.
    - The platform's [URL] constructor is a parameter [URL_parse] of the
      definitions that call it; [BASE_HOST] is a parameter as well (the
      source has ["localhost:8080"] and names ["wikimark.net"] as the other
      sample value).
    - The event handler's effects on the page and the browser are recorded
      as a trace of events; what the page's host is, what the fetch
      resolves to and whether the user navigated back are its inputs. *)

From Stdlib Require Import String Ascii List Bool Arith NArith Lia DecimalString.
From Stdlib Require Import Permutation.
Import ListNotations.
Open Scope list_scope.
Open Scope string_scope.

Set Implicit Arguments.

(* ================================================================== *)
(** * Strings *)

Module Str.

Definition isDigit (c : ascii) : bool := ("0" <=? c)%char && (c <=? "9")%char.

Definition isLower (c : ascii) : bool := ("a" <=? c)%char && (c <=? "z")%char.

Definition isUpper (c : ascii) : bool := ("A" <=? c)%char && (c <=? "Z")%char.

Definition toUpperCaseChar (c : ascii) : ascii :=
  if isLower c then ascii_of_nat (nat_of_ascii c - 32) else c.

Definition toLowerCaseChar (c : ascii) : ascii :=
  if isUpper c then ascii_of_nat (nat_of_ascii c + 32) else c.

Fixpoint map (f : ascii -> ascii) (s : string) : string :=
  match s with
  | EmptyString => EmptyString
  | String c s' => String (f c) (map f s')
  end.

Fixpoint forallb (p : ascii -> bool) (s : string) : bool :=
  match s with
  | EmptyString => true
  | String c s' => p c && forallb p s'
  end.

(** [String.prototype.toUpperCase], [String.prototype.toLowerCase], as
    they act on ASCII strings. *)
Definition toUpperCase : string -> string := map toUpperCaseChar.
Definition toLowerCase : string -> string := map toLowerCaseChar.

(** The characters of the string are ASCII characters. *)
Definition isAscii (s : string) : bool := forallb (fun c => (c <=? "127")%char) s.

(** [String.prototype.endsWith(searchString)]. *)
Definition endsWith (s searchString : string) : bool :=
  let n := String.length s in
  let k := String.length searchString in
  (k <=? n)%nat && (substring (n - k) k s =? searchString).

(** [String.prototype.lastIndexOf(searchString)]; [None] is [-1]. *)
Fixpoint lastIndexOf (s searchString : string) : option nat :=
  match s with
  | EmptyString => if searchString =? "" then Some 0 else None
  | String _ s' =>
      match lastIndexOf s' searchString with
      | Some k => Some (S k)
      | None => if prefix searchString s then Some 0 else None
      end
  end.

(** [Number.prototype.toString] on a natural number. *)
Definition ofNat (n : nat) : string := NilEmpty.string_of_uint (Nat.to_uint n).

(** The double quote character, as a string. *)
Definition dquote : string := String "034" "".

End Str.

(* ================================================================== *)
(** * Regular expressions

    A backtracking matcher for the fragment of ECMAScript patterns that the
    program uses: characters, [.], a class range, sequence, greedy [*] and
    [+], one capturing group, [^] and [$] (no [m] flag), and the [i] flag.
    A matcher maps a state to the list of states it can end in, in the
    order in which backtracking tries them. *)

Module RegExp.

Inductive regex : Type :=
| Eps                           (* the empty pattern *)
| Char (c : ascii)              (* a pattern character *)
| Dot                           (* [.] *)
| Range (lo hi : ascii)         (* [[lo-hi]] *)
| Seq (r1 r2 : regex)           (* r1 r2 *)
| Star (r : regex)              (* r* *)
| Group (r : regex)             (* (r), capture 1 *)
| Bol                           (* ^ *)
| Eol.                          (* $ *)

(** r+ *)
Definition Plus (r : regex) : regex := Seq r (Star r).

(** The characters of a string, in sequence. *)
Fixpoint Lit (s : string) : regex :=
  match s with
  | EmptyString => Eps
  | String c s' => Seq (Char c) (Lit s')
  end.

Record State : Type := mkState {
  endIndex : nat;               (* characters consumed so far *)
  rest : string;                (* input from [endIndex] on *)
  capture1 : option string      (* what group 1 matched, if it took part *)
}.

(** LF and CR; U+2028 and U+2029 are outside the character range. *)
Definition isLineTerminator (c : ascii) : bool :=
  (c =? "010")%char || (c =? "013")%char.

(** Canonicalize: with the [i] flag a character is compared through its
    upper case (a non-ASCII character never canonicalizes to an ASCII
    one). *)
Definition canonicalize (ignoreCase : bool) (c : ascii) : ascii :=
  if ignoreCase then Str.toUpperCaseChar c else c.

Definition rangeChars (lo hi : ascii) : list ascii :=
  List.map ascii_of_nat (seq (nat_of_ascii lo) (S (nat_of_ascii hi) - nat_of_ascii lo)).

(** One character, accepted by [p]. *)
Definition one (p : ascii -> bool) (x : State) : list State :=
  match rest x with
  | String ch tl => if p ch then [mkState (S (endIndex x)) tl (capture1 x)] else []
  | EmptyString => []
  end.

(** RepeatMatcher for [*]: greedy, one more iteration first, then stop
    here.  An iteration that consumes nothing is rejected, so there are at
    most as many iterations as characters left, which is what [fuel]
    starts from. *)
Fixpoint iterate (body : State -> list State) (fuel : nat) (x : State) : list State :=
  match fuel with
  | O => [x]
  | S fuel' =>
      flat_map (fun y => if (endIndex y =? endIndex x)%nat then [] else iterate body fuel' y)
               (body x)
      ++ [x]
  end.

Fixpoint m (ignoreCase : bool) (r : regex) (x : State) {struct r} : list State :=
  match r with
  | Eps => [x]
  | Char c =>
      one (fun ch => (canonicalize ignoreCase ch =? canonicalize ignoreCase c)%char) x
  | Dot =>
      one (fun ch => negb (isLineTerminator ch)) x
  | Range lo hi =>
      one (fun ch =>
             existsb (fun a => (canonicalize ignoreCase a =? canonicalize ignoreCase ch)%char)
                     (rangeChars lo hi)) x
  | Seq r1 r2 =>
      flat_map (m ignoreCase r2) (m ignoreCase r1 x)
  | Star r1 =>
      iterate (m ignoreCase r1) (S (String.length (rest x))) x
  | Group r1 =>
      List.map (fun y => mkState (endIndex y) (rest y)
                           (Some (substring 0 (endIndex y - endIndex x) (rest x))))
               (m ignoreCase r1 x)
  | Bol => if (endIndex x =? 0)%nat then [x] else []
  | Eol => match rest x with EmptyString => [x] | _ => [] end
  end.

(** RegExpBuiltinExec without the [g] and [y] flags: the first start
    index, from 0 upwards, at which the pattern matches; [None] is
    [null]. *)
Fixpoint execFrom (ignoreCase : bool) (r : regex) (i : nat) (s : string) : option State :=
  match m ignoreCase r (mkState i s None) with
  | y :: _ => Some y
  | [] =>
      match s with
      | EmptyString => None
      | String _ s' => execFrom ignoreCase r (S i) s'
      end
  end.

Definition exec (ignoreCase : bool) (r : regex) (s : string) : option State :=
  execFrom ignoreCase r 0 s.

(** [y] is [x] after reading [consumed], captures untouched. *)
Definition reads (x : State) (consumed : string) (y : State) : Prop :=
  rest x = consumed ++ rest y /\
  endIndex y = endIndex x + String.length consumed /\
  capture1 y = capture1 x.

(** [y] is [x] after reading some characters. *)
Definition advances (x y : State) : Prop :=
  exists consumed,
    rest x = consumed ++ rest y /\ endIndex y = endIndex x + String.length consumed.

End RegExp.

(* ================================================================== *)
(** * Template literals *)

Module Template.

Inductive Piece : Type :=
| Text (s : string)             (* literal text *)
| Subst.                        (* a substitution [${...}] *)

Definition Template : Type := list Piece.

Fixpoint render (t : Template) (value : string) : string :=
  match t with
  | [] => ""
  | Text s :: t' => s ++ render t' value
  | Subst :: t' => value ++ render t' value
  end.

Definition substitutions (t : Template) : nat :=
  List.length (filter (fun p => match p with Subst => true | Text _ => false end) t).

(** The text before the first substitution, and the text after it of a
    template with one substitution. *)
Fixpoint textBefore (t : Template) : string :=
  match t with
  | [] => ""
  | Text s :: t' => s ++ textBefore t'
  | Subst :: _ => ""
  end.

Fixpoint textAfter (t : Template) : string :=
  match t with
  | [] => ""
  | Text _ :: t' => textAfter t'
  | Subst :: t' => render t' ""
  end.

End Template.

(* ================================================================== *)
(** * Objects used as maps

    An object literal [{}] whose properties are created by assignment: its
    own properties in creation order.  Its prototype is
    [Object.prototype], which the page does not extend. *)

Module Obj.

Definition t (V : Type) : Type := list (string * V).

(** The names of the properties of [Object.prototype], which every object
    literal inherits. *)
Definition prototypeNames : list string :=
  [ "constructor"; "__defineGetter__"; "__defineSetter__"; "hasOwnProperty";
    "__lookupGetter__"; "__lookupSetter__"; "isPrototypeOf";
    "propertyIsEnumerable"; "toString"; "valueOf"; "__proto__";
    "toLocaleString" ].

Definition inherited (key : string) : bool := existsb (String.eqb key) prototypeNames.

(** [key] names an own property of [o]. *)
Fixpoint has {V} (key : string) (o : t V) : bool :=
  match o with
  | [] => false
  | (k, _) :: o' => (k =? key) || has key o'
  end.

(** [key in o]: an own property or an inherited one. *)
Definition isIn {V} (key : string) (o : t V) : bool := has key o || inherited key.

(** The value of the own property [key]. *)
Fixpoint get {V} (key : string) (o : t V) : option V :=
  match o with
  | [] => None
  | (k, v) :: o' => if k =? key then Some v else get key o'
  end.

(** What [o[key]] evaluates to: the value of an own property, a member of
    [Object.prototype], or [undefined]. *)
Inductive Read (V : Type) : Type :=
| Own (v : V)
| Inherited (name : string)
| Undefined.

Arguments Own {V} v.
Arguments Inherited {V} name.
Arguments Undefined {V}.

Definition read {V} (key : string) (o : t V) : Read V :=
  match get key o with
  | Some v => Own v
  | None => if inherited key then Inherited key else Undefined
  end.

(** [o[key] = v], where [key] is an own property or is not [in] the
    object: a new property is created last, an existing one keeps its
    place. *)
Fixpoint set {V} (key : string) (v : V) (o : t V) : t V :=
  match o with
  | [] => [(key, v)]
  | (k, v0) :: o' => if k =? key then (k, v) :: o' else (k, v0) :: set key v o'
  end.

(** The number that a run of decimal digits denotes, after [acc]. *)
Fixpoint decimal (acc : N) (digits : string) : N :=
  match digits with
  | EmptyString => acc
  | String c digits' => decimal (10 * acc + (N_of_ascii c - 48)) digits'
  end.

(** The array index that [key] is the canonical numeral of: an integer from
    0 to 2^32 - 2, written in decimal digits without leading zeros. *)
Definition arrayIndex (key : string) : option N :=
  match key with
  | EmptyString => None
  | String c digits =>
      if Str.forallb Str.isDigit key && (negb (c =? "0")%char || (digits =? ""))
      then
        let n := decimal 0 key in
        if (n <=? 4294967294)%N then Some n else None
      else None
  end.

Definition isArrayIndex (key : string) : bool :=
  match arrayIndex key with
  | Some _ => true
  | None => false
  end.

(** An ordinary property name: not an array index, and not the name of a
    member of [Object.prototype]. *)
Definition ordinary (key : string) : bool := negb (isArrayIndex key) && negb (inherited key).

Fixpoint insertByIndex {V} (n : N) (entry : string * V) (sorted : list (N * (string * V)))
  : list (N * (string * V)) :=
  match sorted with
  | [] => [(n, entry)]
  | (m, e) :: sorted' =>
      if (n <? m)%N then (n, entry) :: sorted else (m, e) :: insertByIndex n entry sorted'
  end.

(** The properties named by array indices, in ascending order of index. *)
Fixpoint indexed {V} (o : t V) : list (N * (string * V)) :=
  match o with
  | [] => []
  | entry :: o' =>
      match arrayIndex (fst entry) with
      | Some n => insertByIndex n entry (indexed o')
      | None => indexed o'
      end
  end.

(** The other properties, in creation order. *)
Definition named {V} (o : t V) : list (string * V) :=
  filter (fun entry : string * V => negb (isArrayIndex (fst entry))) o.

(** [Object.entries(o)] *)
Definition entries {V} (o : t V) : list (string * V) :=
  (List.map snd (indexed o) ++ named o)%list.

(** The names of the own properties, in creation order. *)
Definition names {V} (o : t V) : list string := List.map fst o.

(** Changing every property named [key] by [f]. *)
Definition adjust {V} (key : string) (f : V -> V) (o : t V) : t V :=
  List.map (fun entry : string * V =>
              if fst entry =? key then (fst entry, f (snd entry)) else entry) o.

End Obj.

(* ================================================================== *)
(** * Type definitions *)

Inductive Rank : Type := PREFERRED | NORMAL | DEPRECATED.

(** What [RANK_MAP[rank]] can evaluate to, [undefined] apart: one of the
    numbers of [Rank], or a member of [Object.prototype] (the function
    [Object] for ["constructor"], and so on). *)
Inductive RankValue : Type :=
| Number (r : Rank)
| Member (name : string).

Coercion Number : Rank >-> RankValue.

(** [Some r] is read at the type that the context expects, so that a rank
    stands for its number where a value of the table is expected. *)
Arguments Some {A} & a.

(** The numbers of the frozen [Rank] object. *)
Definition Rank_value (r : Rank) : nat :=
  match r with
  | PREFERRED => 1
  | NORMAL => 2
  | DEPRECATED => 100
  end.

(** What the program reads of a [URL] object. *)
Record URL : Type := mkURL {
  href : string;
  hostname : string
}.

(** One element of [response.results.bindings]; each field is the [value]
    of the SPARQL variable of that name. *)
Record Binding : Type := mkBinding {
  item_value : string;
  itemLabel_value : string;
  itemDescription_value : string;
  website_value : string;
  rank_value : string
}.

Record Website : Type := mkWebsite {
  url : URL;
  rank : option RankValue         (* [None] is [undefined] *)
}.

Record Entity : Type := mkEntity {
  label : string;
  description : string;
  websites : list Website
}.

Definition Entities : Type := Obj.t Entity.

(** The view that [displayResults] hands to the template engine. *)
Record Card : Type := mkCard {
  card_uri : string;
  card_name : string;
  card_description : string;
  card_permalink : string;
  card_urls : list URL
}.

(* ================================================================== *)
(** * Effects of the event handler *)

Inductive Event : Type :=
| StatusText (status : string)          (* [#status] shows [status] *)
| ProgressValue (progress : nat)        (* [progress] has value [progress] *)
| Request (query : string)              (* [fetch] of the endpoint with [query] *)
| ConsoleError                          (* [console.error] *)
| TopResult (card : Card)               (* [#topResult] is the rendered card *)
| OtherResult (card : Card)             (* a card appended to [#otherResults] *)
| DetailsSummary (text : string)        (* [details] shown with this summary *)
| ResultsShown                          (* [#results] displayed *)
| Timeout (navigateTo : option URL) (delay : nat).
    (* [setTimeout]: the callback assigns [window.location] to the URL, or
       throws when run ([None]) *)

(** What [await fetch(...)] gives: a rejected promise; a response with
    its [ok] flag and the bindings of its JSON body; or a response with
    [ok] set whose body cannot be read, so that [response.json()] rejects
    or the normalizer throws on a missing [results.bindings] or on a
    field that a row lacks. *)
Inductive Fetched : Type :=
| Rejected
| Response (ok : bool) (bindings : list Binding)
| Unreadable.

(** A computation logs events and returns a value or throws ([None]). *)
Definition M (A : Type) : Type := (list Event * option A)%type.

Definition ret {A} (a : A) : M A := ([], Some a).

Definition throw {A} : M A := ([], None).

Definition bind {A B} (c : M A) (k : A -> M B) : M B :=
  match c with
  | (trace, Some a) => let (trace', r) := k a in ((trace ++ trace')%list, r)
  | (trace, None) => (trace, None)
  end.

Definition emit (e : Event) : M unit := ([e], Some tt).

Definition orThrow {A} (o : option A) : M A := ([], o).

Declare Scope redirector_scope.
Delimit Scope redirector_scope with M.
Notation "x <- c ;; k" := (bind c (fun x => k))
  (at level 61, c at next level, right associativity) : redirector_scope.
Notation "c ;; k" := (bind c (fun _ => k))
  (at level 61, right associativity) : redirector_scope.

Fixpoint forEach {A} (f : A -> M unit) (l : list A) : M unit :=
  match l with
  | [] => ret tt
  | a :: l' => (f a ;; forEach f l')%M
  end.

(* ================================================================== *)
(** * Helpers and SPARQL queries *)

Import Template.

(** [/q[0-9]+/i] *)
Definition qidPattern : RegExp.regex :=
  RegExp.Seq (RegExp.Char "q") (RegExp.Plus (RegExp.Range "0" "9")).

(** [/^.*\/entity\/(Q[0-9]+)$/] *)
Definition entityUriPattern : RegExp.regex :=
  RegExp.Seq RegExp.Bol
    (RegExp.Seq (RegExp.Star RegExp.Dot)
       (RegExp.Seq (RegExp.Lit "/entity/")
          (RegExp.Seq
             (RegExp.Group (RegExp.Seq (RegExp.Char "Q") (RegExp.Plus (RegExp.Range "0" "9"))))
             RegExp.Eol))).

Definition isOnion (url : URL) : bool := Str.endsWith (hostname url) ".onion".

Definition RANK_MAP : Obj.t Rank :=
  [ ("http://wikiba.se/ontology#PreferredRank", PREFERRED);
    ("http://wikiba.se/ontology#NormalRank", NORMAL);
    ("http://wikiba.se/ontology#DeprecatedRank", DEPRECATED) ].

Definition parseRank (rank : string) : option RankValue :=
  match Obj.read rank RANK_MAP with
  | Obj.Own r => Some (Number r)
  | Obj.Inherited name => Some (Member name)
  | Obj.Undefined => None
  end.

(** The template literal of [prepareSparqlSearchQuery]; its substitution is [${term}]. *)
Definition searchTemplate : Template :=
  [ Text "
    SELECT DISTINCT ?item ?itemLabel ?itemDescription ?website ?endDate ?rank
    WHERE {
      SERVICE wikibase:mwapi {
        bd:serviceParam wikibase:api ";
    Text Str.dquote;
    Text "Search";
    Text Str.dquote;
    Text " .
        bd:serviceParam wikibase:endpoint ";
    Text Str.dquote;
    Text "www.wikidata.org";
    Text Str.dquote;
    Text " .
        bd:serviceParam mwapi:srsearch ";
    Text Str.dquote;
    Subst;
    Text Str.dquote;
    Text " .
        ?item wikibase:apiOutputItem mwapi:title .
        ?num wikibase:apiOrdinal true .
      }
      SERVICE wikibase:label {
        bd:serviceParam wikibase:language ";
    Text Str.dquote;
    Text "en";
    Text Str.dquote;
    Text " .
        ?item rdfs:label ?itemLabel .
        ?item schema:description ?itemDescription .
      }
      
      ?item p:P856 ?statement .
      ?statement ps:P856 ?website .
      ?statement wikibase:rank ?rank .
      FILTER NOT EXISTS {
        ?statement pq:P582 ?endDate .
      }
      FILTER(?rank != wikibase:DeprecatedRank)
      FILTER(BOUND(?itemLabel))
      FILTER(BOUND(?itemDescription))
    }
    ORDER BY ASC(?num) DESC(?rank)
    LIMIT 20
  " ].

(** The template literal of [prepareSparqlLookupQuery]; its substitution is [${id.toUpperCase()}]. *)
Definition lookupTemplate : Template :=
  [ Text "
    SELECT DISTINCT ?item ?itemLabel ?itemDescription ?website ?endDate ?rank
    WHERE {
      BIND(wd:";
    Subst;
    Text " AS ?item)
    
      SERVICE wikibase:label {
        bd:serviceParam wikibase:language ";
    Text Str.dquote;
    Text "en";
    Text Str.dquote;
    Text " .
        ?item rdfs:label ?itemLabel .
        ?item schema:description ?itemDescription .
      }
    
      ?item p:P856 ?statement .
      ?statement ps:P856 ?website .
      ?statement wikibase:rank ?rank .
      FILTER NOT EXISTS {
        ?statement pq:P582 ?endDate .
      }
      FILTER(?rank != wikibase:DeprecatedRank)
      FILTER(BOUND(?itemLabel))
      FILTER(BOUND(?itemDescription))
    }
    ORDER BY DESC(?rank)
    LIMIT 20
  " ].

Definition prepareSparqlSearchQuery (term : string) : string :=
  render searchTemplate term.

Definition prepareSparqlLookupQuery (id : string) : string :=
  render lookupTemplate (Str.toUpperCase id).

(** [str.substring(0, str.lastIndexOf(suffix)) || str]: [substring] takes
    the end [-1] as [0], and the empty string is falsy. *)
Definition removeSuffix (str suffix : string) : string :=
  let cut :=
    match Str.lastIndexOf str suffix with
    | Some k => substring 0 k str
    | None => ""
    end in
  if cut =? "" then str else cut.

Definition isEmpty {V} (obj : Obj.t V) : bool :=
  match obj with
  | [] => true
  | _ :: _ => false
  end.

(** Lines 33-47 of the handler: the query to send and the delay of the
    redirect, by whether the token matches [qidPattern]. *)
Definition isLookup (query : string) : bool :=
  match RegExp.exec true qidPattern query with
  | Some _ => true
  | None => false
  end.

Definition prepareRequest (query : string) : string * nat :=
  if isLookup query
  then (prepareSparqlLookupQuery query, 0)
  else (prepareSparqlSearchQuery query, 1000).

(** The entity after [e.websites.push(w)]. *)
Definition pushed (w : Website) (e : Entity) : Entity :=
  mkEntity (label e) (description e) (websites e ++ [w]).

Section Redirector.

(** The base domain of the deployment. *)
Variable BASE_HOST : string.

(** [new URL(s)]; [None] when the constructor throws. *)
Variable URL_parse : string -> option URL.

Definition generatePermalink (uri : string) : option string :=
  match RegExp.exec false entityUriPattern uri with
  | None => None                          (* [null[1]] throws *)
  | Some y =>
      match RegExp.capture1 y with
      | None => None
      | Some qid => Some ("//" ++ Str.toLowerCase qid ++ "." ++ BASE_HOST)
      end
  end.

(** [entities[itemUri].websites.push(w)]; throws when [itemUri] is not an
    own property: the read then gives [undefined] or a member of
    [Object.prototype], and neither has a [websites] array. *)
Definition pushWebsite (itemUri : string) (w : Website) (entities : Entities)
  : option Entities :=
  match Obj.get itemUri entities with
  | None => None
  | Some e => Some (Obj.set itemUri (pushed w e) entities)
  end.

(** The body of the loop of [transformSparqlResponse], for one binding. *)
Definition transformBinding (entities : Entities) (binding : Binding) : option Entities :=
  let itemUri := item_value binding in
  match URL_parse (website_value binding) with
  | None => None
  | Some websiteUrl =>
      if isOnion websiteUrl then Some entities
      else
        let entities :=
          if negb (Obj.isIn itemUri entities)
          then Obj.set itemUri
                 (mkEntity (itemLabel_value binding) (itemDescription_value binding) [])
                 entities
          else entities in
        pushWebsite itemUri (mkWebsite websiteUrl (parseRank (rank_value binding))) entities
  end.

Fixpoint transformBindings (entities : Entities) (bindings : list Binding)
  : option Entities :=
  match bindings with
  | [] => Some entities
  | binding :: bindings' =>
      match transformBinding entities binding with
      | None => None
      | Some entities' => transformBindings entities' bindings'
      end
  end.

Definition transformSparqlResponse (bindings : list Binding) : option Entities :=
  transformBindings [] bindings.

(** ** UI helpers *)

Definition updateStatus (status : string) : M unit := emit (StatusText status).

Definition updateProgress (progress : nat) : M unit := emit (ProgressValue progress).

Definition renderCard (uri : string) (item : Entity) : M Card :=
  (permalink <- orThrow (generatePermalink uri) ;;
   ret (mkCard uri (label item) (description item) permalink (List.map url (websites item))))%M.

Definition displayResults (results : Entities) : M unit :=
  match Obj.entries results with
  | [] => throw
  | (topURI, topItem) :: otherResults =>
      (card <- renderCard topURI topItem ;;
       emit (TopResult card) ;;
       forEach (fun entry : string * Entity =>
                  let (uri, item) := entry in
                  card <- renderCard uri item ;;
                  emit (OtherResult card))
               otherResults ;;
       match List.length otherResults with
       | 0 => ret tt
       | 1 => emit (DetailsSummary "1 more result")
       | n => emit (DetailsSummary (Str.ofNat n ++ " more results"))
       end ;;
       emit ResultsShown)%M
  end.

(** ** Entrypoint *)

(** The callback given to [setTimeout]: the URL it navigates to, [None]
    when it throws. *)
Definition redirectTarget (results : Entities) : option URL :=
  match Obj.entries results with
  | [] => None
  | (uri, item) :: _ =>
      match websites item with
      | [] => None
      | w :: _ => Some (url w)
      end
  end.

(** The [load] handler, given the page's host, what the fetch resolves to
    and what [didNavigateBack()] answers. *)
Definition onLoad (host : string) (fetched : Fetched) (navigatedBack : bool) : M unit :=
  let query := removeSuffix host ("." ++ BASE_HOST) in
  let (sparql, delay) := prepareRequest query in
  (updateStatus "Searching..." ;;
   emit (Request sparql) ;;
   match fetched with
   | Rejected => throw
   | Response ok bindings =>
       if negb ok then
         updateStatus "Search failed!" ;;
         emit ConsoleError
       else
         results <- orThrow (transformSparqlResponse bindings) ;;
         updateProgress 100 ;;
         if isEmpty results then
           updateStatus "Not found."
         else
           updateStatus "Found." ;;
           displayResults results ;;
           if negb navigatedBack then
             updateStatus "Redirecting..." ;;
             emit (Timeout (redirectTarget results) delay)
           else ret tt
   | Unreadable => throw
   end)%M.

End Redirector.

(* ================================================================== *)
(** * An instance of the URL parser

    The examples below need some parser to run on.  [basicURL] accepts
    [http://host/...] and [https://host/...] where [host] is a non-empty
    run of lower-case letters, digits, [.] and [-], followed by [/] or by
    the end of the string; the host name is that run and [href] is the
    input.  Every theorem about [transformSparqlResponse] and [onLoad] is
    stated for an arbitrary [URL_parse]. *)

Definition isHostChar (c : ascii) : bool :=
  Str.isLower c || Str.isDigit c || (c =? ".")%char || (c =? "-")%char.

Fixpoint hostOf (s : string) : option string :=
  match s with
  | EmptyString => Some ""
  | String c s' =>
      if (c =? "/")%char then Some ""
      else if isHostChar c then option_map (String c) (hostOf s')
      else None
  end.

Definition afterScheme (s : string) : option string :=
  if prefix "http://" s then Some (substring 7 (String.length s - 7) s)
  else if prefix "https://" s then Some (substring 8 (String.length s - 8) s)
  else None.

Definition basicURL (s : string) : option URL :=
  match afterScheme s with
  | None => None
  | Some s' =>
      match hostOf s' with
      | None | Some EmptyString => None
      | Some host => Some (mkURL s host)
      end
  end.

(* ================================================================== *)
(** * The properties that the specification names *)

(** The token contains a letter Q, in either case, followed by one or more
    digits. *)
Definition containsQid (token : string) : Prop :=
  exists before q digits after,
    token = before ++ String q digits ++ after /\
    (q = "q" \/ q = "Q")%char /\
    digits <> "" /\ Str.forallb Str.isDigit digits = true.

(** [uri] has the shape [.../entity/Q<digits>] and [qid] is its
    [Q<digits>]; the dots stand for what [.*] matches, any characters but
    line terminators. *)
Definition isEntityUri (uri qid : string) : Prop :=
  exists before digits,
    uri = before ++ "/entity/" ++ qid /\
    qid = String "Q" digits /\
    digits <> "" /\ Str.forallb Str.isDigit digits = true /\
    Str.forallb (fun c => negb (RegExp.isLineTerminator c)) before = true.

(** ** What a trace of the handler shows *)

(** The redirects that the trace schedules: the target and the delay of
    each [setTimeout]. *)
Definition scheduled (trace : list Event) : list (option URL * nat) :=
  flat_map (fun e => match e with
                     | Timeout navigateTo delay => [(navigateTo, delay)]
                     | _ => []
                     end) trace.

(** The status text at the end of the trace. *)
Definition finalStatus (trace : list Event) : option string :=
  fold_left (fun shown e => match e with
                            | StatusText status => Some status
                            | _ => shown
                            end) trace None.

(** The events of [displayResults]. *)
Definition isResultEvent (e : Event) : bool :=
  match e with
  | TopResult _ | OtherResult _ | DetailsSummary _ | ResultsShown => true
  | _ => false
  end.

(** ** The entity map, as the specification describes it *)

Section NormalizerSpec.

Variable URL_parse : string -> option URL.

Definition parses (binding : Binding) : bool :=
  match URL_parse (website_value binding) with
  | Some _ => true
  | None => false
  end.

(** The body of the loop does not throw on the row: the URL parses, and
    the row is skipped or its entity URI is not the name of a member of
    [Object.prototype]. *)
Definition accepted (binding : Binding) : bool :=
  match URL_parse (website_value binding) with
  | Some websiteUrl => isOnion websiteUrl || negb (Obj.inherited (item_value binding))
  | None => false
  end.

(** A row survives, with its parsed URL, when the URL parses and its host
    is not an onion host. *)
Definition survivor (binding : Binding) : option (Binding * URL) :=
  match URL_parse (website_value binding) with
  | Some websiteUrl => if isOnion websiteUrl then None else Some (binding, websiteUrl)
  | None => None
  end.

Definition survivors (bindings : list Binding) : list (Binding * URL) :=
  flat_map (fun binding =>
              match survivor binding with
              | Some row => [row]
              | None => []
              end) bindings.

End NormalizerSpec.

Definition entityOf (row : Binding * URL) : string := item_value (fst row).

Definition sameEntity (uri : string) (row : Binding * URL) : bool := entityOf row =? uri.

(** The destination that a surviving row contributes. *)
Definition destination (row : Binding * URL) : Website :=
  mkWebsite (snd row) (parseRank (rank_value (fst row))).

(** The first row of each entity URI, in row order. *)
Fixpoint firstSeen (rows : list (Binding * URL)) : list (Binding * URL) :=
  match rows with
  | [] => []
  | row :: rows' =>
      row :: filter (fun row' => negb (sameEntity (entityOf row) row')) (firstSeen rows')
  end.

(** One entity per URI, in the order in which the URIs first appear, with
    the label and description of the URI's first row and the destinations
    of all its rows, in row order. *)
Definition entityMap (rows : list (Binding * URL)) : Entities :=
  List.map
    (fun row =>
       (entityOf row,
        mkEntity (itemLabel_value (fst row)) (itemDescription_value (fst row))
                 (List.map destination (filter (sameEntity (entityOf row)) rows))))
    (firstSeen rows).

(** The rows of the specification's scenario: E1 with [http://a.example/],
    preferred; E2 with [http://b.example/], normal; E1 with
    [http://x.onion/], preferred. *)
Definition scenario
  (label1 description1 label2 description2 label3 description3 : string) : list Binding :=
  [ mkBinding "E1" label1 description1 "http://a.example/"
              "http://wikiba.se/ontology#PreferredRank";
    mkBinding "E2" label2 description2 "http://b.example/"
              "http://wikiba.se/ontology#NormalRank";
    mkBinding "E1" label3 description3 "http://x.onion/"
              "http://wikiba.se/ontology#PreferredRank" ].

(* ================================================================== *)
(** * The rest of the page script *)

(** [didNavigateBack], given the [type] of each entry that
    [performance.getEntriesByType("navigation")] returns, in order. *)
Definition didNavigateBack (entries : list string) : bool :=
  (0 <? List.length entries)%nat &&
  match nth_error entries (List.length entries - 1) with
  | Some type => type =? "back_forward"
  | None => false
  end.

(** ** What the further properties speak about *)

(** The cards that a trace renders, in order. *)
Definition cardsShown (trace : list Event) : list Card :=
  flat_map (fun e => match e with
                     | TopResult card | OtherResult card => [card]
                     | _ => []
                     end) trace.

(** The queries that a trace sends to the endpoint, in order. *)
Definition requests (trace : list Event) : list string :=
  flat_map (fun e => match e with
                     | Request query => [query]
                     | _ => []
                     end) trace.

(** [card] is the card of the entry [(uri, item)] of the map. *)
Definition isCardOf (BASE_HOST : string) (card : Card) (entry : string * Entity) : Prop :=
  card_uri card = fst entry /\
  card_name card = label (snd entry) /\
  card_description card = description (snd entry) /\
  generatePermalink BASE_HOST (fst entry) = Some (card_permalink card) /\
  card_urls card = List.map url (websites (snd entry)).

(** The summary line above the entities after the first, [n] of them. *)
Definition detailsSummary (n : nat) : list Event :=
  match n with
  | 0 => []
  | 1 => [DetailsSummary "1 more result"]
  | _ => [DetailsSummary (Str.ofNat n ++ " more results")]
  end.

(** All the destinations of a map, entity after entity. *)
Definition allDestinations (results : Entities) : list Website :=
  flat_map (fun entry : string * Entity => websites (snd entry)) results.

(** A row with its rank code replaced. *)
Definition withRankCode (code : string -> string) (binding : Binding) : Binding :=
  mkBinding (item_value binding) (itemLabel_value binding) (itemDescription_value binding)
            (website_value binding) (code (rank_value binding)).

(** A map without the ranks of its destinations. *)
Definition withoutRanks (results : Entities) : list (string * (string * string * list URL)) :=
  List.map (fun entry : string * Entity =>
              (fst entry,
               (label (snd entry), description (snd entry),
                List.map url (websites (snd entry))))) results.

(** The properties of [earlier] are the properties of [later] that were
    created first, and each has in [later] the same label and description
    and its destinations followed by further ones. *)
Definition grownFrom (earlier later : Entities) : Prop :=
  (exists more, Obj.names later = (Obj.names earlier ++ more)%list) /\
  forall uri e,
    Obj.get uri earlier = Some e ->
    exists e' more,
      Obj.get uri later = Some e' /\
      label e' = label e /\ description e' = description e /\
      websites e' = (websites e ++ more)%list.

(* ================================================================== *)
(** * The definitions at work *)

Section Examples.

Example removeSuffix_subdomain :
  removeSuffix "q42.localhost:8080" ".localhost:8080" = "q42".
Proof. reflexivity. Qed.

Example removeSuffix_bare_host :
  removeSuffix "localhost:8080" ".localhost:8080" = "localhost:8080".
Proof. reflexivity. Qed.

Example isLookup_examples :
  isLookup "q42" = true /\ isLookup "Q42" = true /\ isLookup "faq2" = true /\
  isLookup "q" = false /\ isLookup "douglas-adams" = false /\ isLookup "" = false.
Proof. repeat split. Qed.

Example isOnion_examples :
  isOnion (mkURL "http://x.onion/" "x.onion") = true /\
  isOnion (mkURL "http://onion/" "onion") = false /\
  isOnion (mkURL "http://a.example/.onion" "a.example") = false.
Proof. repeat split. Qed.

Example generatePermalink_Q42 :
  generatePermalink "wikimark.net" "http://www.wikidata.org/entity/Q42"
  = Some "//q42.wikimark.net".
Proof. reflexivity. Qed.

Example generatePermalink_examples :
  generatePermalink "wikimark.net" "http://www.wikidata.org/entity/q42" = None /\
  generatePermalink "wikimark.net" "http://www.wikidata.org/entity/Q42/" = None /\
  generatePermalink "wikimark.net" "http://www.wikidata.org/entity/Q" = None /\
  generatePermalink "localhost:8080" "/entity/Q1/entity/Q23" = Some "//q23.localhost:8080".
Proof. repeat split. Qed.

Example parseRank_examples :
  parseRank "http://wikiba.se/ontology#PreferredRank" = Some PREFERRED /\
  parseRank "http://wikiba.se/ontology#NormalRank" = Some NORMAL /\
  parseRank "http://wikiba.se/ontology#DeprecatedRank" = Some DEPRECATED /\
  parseRank "PreferredRank" = None /\
  parseRank "toString" = Some (Member "toString").
Proof. repeat split. Qed.

(** Array indices are the numerals without leading zeros up to 2^32 - 2. *)
Example arrayIndex_examples :
  Obj.arrayIndex "0" = Some 0%N /\
  Obj.arrayIndex "42" = Some 42%N /\
  Obj.arrayIndex "4294967294" = Some 4294967294%N /\
  Obj.arrayIndex "4294967295" = None /\
  Obj.arrayIndex "042" = None /\
  Obj.arrayIndex "-1" = None /\
  Obj.arrayIndex "Q42" = None /\
  Obj.arrayIndex "" = None.
Proof. repeat split. Qed.

(** [Object.entries] lists the array indices first, in ascending order. *)
Example entries_example :
  Obj.entries [("b", 1); ("10", 2); ("a", 3); ("2", 4); ("01", 5)]
  = [("2", 4); ("10", 2); ("b", 1); ("a", 3); ("01", 5)].
Proof. reflexivity. Qed.

(** [in] sees what [Object.prototype] has; the own properties do not. *)
Example isIn_examples :
  Obj.isIn "toString" ([] : Obj.t nat) = true /\
  Obj.has "toString" ([] : Obj.t nat) = false /\
  Obj.isIn "a" [("a", 1)] = true /\
  Obj.isIn "b" [("a", 1)] = false.
Proof. repeat split. Qed.

(** A search that finds two entities: the trace of the handler. *)
Example onLoad_search :
  let bindings :=
    [ mkBinding "http://www.wikidata.org/entity/Q1" "one" "first" "http://a.example/"
                "http://wikiba.se/ontology#PreferredRank";
      mkBinding "http://www.wikidata.org/entity/Q2" "two" "second" "http://b.example/"
                "http://wikiba.se/ontology#NormalRank";
      mkBinding "http://www.wikidata.org/entity/Q1" "one" "first" "http://c.example/"
                "http://wikiba.se/ontology#NormalRank" ] in
  let a := mkURL "http://a.example/" "a.example" in
  let b := mkURL "http://b.example/" "b.example" in
  let c := mkURL "http://c.example/" "c.example" in
  onLoad "wikimark.net" basicURL "universe.wikimark.net" (Response true bindings) false
  = ([ StatusText "Searching...";
       Request (prepareSparqlSearchQuery "universe");
       ProgressValue 100;
       StatusText "Found.";
       TopResult (mkCard "http://www.wikidata.org/entity/Q1" "one" "first"
                         "//q1.wikimark.net" [a; c]);
       OtherResult (mkCard "http://www.wikidata.org/entity/Q2" "two" "second"
                           "//q2.wikimark.net" [b]);
       DetailsSummary "1 more result";
       ResultsShown;
       StatusText "Redirecting...";
       Timeout (Some a) 1000 ],
     Some tt).
Proof. reflexivity. Qed.

End Examples.

(* ================================================================== *)
(** * Facts about strings *)

Module StrFacts.

Lemma append_nil_r (s : string) : s ++ "" = s.
Proof. induction s as [|c s IH]; simpl; [reflexivity | now rewrite IH]. Qed.

Lemma append_assoc (a b c : string) : (a ++ b) ++ c = a ++ (b ++ c).
Proof. induction a as [|x a IH]; simpl; [reflexivity | now rewrite IH]. Qed.

Lemma length_append (a b : string) :
  String.length (a ++ b) = String.length a + String.length b.
Proof. induction a as [|x a IH]; simpl; [reflexivity | now rewrite IH]. Qed.

Lemma append_inv_head (a b c : string) : a ++ b = a ++ c -> b = c.
Proof.
  induction a as [|x a IH]; simpl; intros H; [exact H|].
  injection H as H. now apply IH.
Qed.

Lemma append_eq_length (a b c d : string) :
  a ++ b = c ++ d -> String.length a = String.length c -> a = c /\ b = d.
Proof.
  revert c. induction a as [|x a IH]; intros [|y c]; simpl; intros H L;
    try discriminate.
  - now split.
  - injection H as -> H. injection L as L.
    destruct (IH _ H L) as [-> ->]. now split.
Qed.

Lemma append_inv_tail (a b c : string) : a ++ c = b ++ c -> a = b.
Proof.
  intros H. apply (append_eq_length a c b c H).
  apply (f_equal String.length) in H. rewrite !length_append in H. lia.
Qed.

Lemma substring_0_append (a b : string) :
  substring 0 (String.length a) (a ++ b) = a.
Proof. induction a as [|x a IH]; simpl; [now destruct b | now rewrite IH]. Qed.

Lemma substring_0_length (s : string) : substring 0 (String.length s) s = s.
Proof. induction s as [|c s IH]; simpl; [reflexivity | now rewrite IH]. Qed.

Lemma substring_skip_append (a b : string) :
  substring (String.length a) (String.length b) (a ++ b) = b.
Proof. induction a as [|x a IH]; simpl; [apply substring_0_length | exact IH]. Qed.

Lemma substring_split (n k : nat) (s : string) :
  n + k = String.length s ->
  s = substring 0 n s ++ substring n k s.
Proof.
  revert s. induction n as [|n IH]; intros s H.
  - simpl in H. subst k.
    replace (substring 0 0 s) with "" by now destruct s.
    simpl. symmetry. apply substring_0_length.
  - destruct s as [|c s]; simpl in H; [discriminate|].
    simpl. f_equal. apply IH. lia.
Qed.

(** [endsWith] is "has this suffix". *)
Lemma endsWith_iff (s t : string) :
  Str.endsWith s t = true <-> exists before, s = before ++ t.
Proof.
  unfold Str.endsWith. rewrite andb_true_iff, Nat.leb_le, String.eqb_eq. split.
  - intros [L E]. exists (substring 0 (String.length s - String.length t) s).
    pose proof (substring_split (String.length s - String.length t)
                  (String.length t) s ltac:(lia)) as H.
    now rewrite E in H.
  - intros [before ->]. rewrite length_append. split; [lia|].
    replace (String.length before + String.length t - String.length t)
      with (String.length before) by lia.
    apply substring_skip_append.
Qed.

Lemma forallb_append (p : ascii -> bool) (a b : string) :
  Str.forallb p (a ++ b) = Str.forallb p a && Str.forallb p b.
Proof.
  induction a as [|x a IH]; simpl; [reflexivity|].
  now rewrite IH, andb_assoc.
Qed.

Lemma forallb_ext (p q : ascii -> bool) (s : string) :
  (forall c, p c = q c) -> Str.forallb p s = Str.forallb q s.
Proof. intros E. induction s as [|c s IH]; simpl; [reflexivity | now rewrite E, IH]. Qed.

Lemma map_append (f : ascii -> ascii) (a b : string) :
  Str.map f (a ++ b) = Str.map f a ++ Str.map f b.
Proof. induction a as [|x a IH]; simpl; [reflexivity | now rewrite IH]. Qed.

Lemma toLowerCase_digits (s : string) :
  Str.forallb Str.isDigit s = true -> Str.toLowerCase s = s.
Proof.
  unfold Str.toLowerCase. induction s as [|c s IH]; simpl; [reflexivity|].
  rewrite andb_true_iff. intros [D H]. rewrite (IH H). f_equal.
  revert D. destruct c as [[] [] [] [] [] [] [] []]; vm_compute; congruence.
Qed.

End StrFacts.

(* ================================================================== *)
(** * Facts about the matcher *)

Module RegExpFacts.

Import RegExp StrFacts.

Lemma state_eq (x y : State) :
  endIndex x = endIndex y -> rest x = rest y -> capture1 x = capture1 y -> x = y.
Proof. destruct x, y; simpl; intros; subst; reflexivity. Qed.

Lemma reads_nil (x y : State) : reads x "" y <-> y = x.
Proof.
  unfold reads; simpl. split.
  - intros (R & E & C). apply state_eq; [lia | congruence | assumption].
  - intros ->. repeat split; lia.
Qed.

Lemma reads_cons (x y : State) (ch : ascii) (s : string) :
  reads x (String ch s) y <->
  exists tl, rest x = String ch tl /\
             reads (mkState (S (endIndex x)) tl (capture1 x)) s y.
Proof.
  unfold reads; simpl. split.
  - intros (R & E & C). exists (s ++ rest y). repeat split; auto; lia.
  - intros (tl & R & -> & E & C). rewrite R. repeat split; auto; lia.
Qed.

Lemma reads_trans (x y z : State) (a b : string) :
  reads x a y -> reads y b z -> reads x (a ++ b) z.
Proof.
  unfold reads. intros (R1 & E1 & C1) (R2 & E2 & C2).
  rewrite append_assoc, length_append, <- R2. repeat split; [assumption | lia | congruence].
Qed.

Lemma in_one (p : ascii -> bool) (x y : State) :
  In y (one p x) <-> exists ch, p ch = true /\ reads x (String ch "") y.
Proof.
  unfold one. split.
  - destruct (rest x) as [|ch tl] eqn:R; [intros []|].
    destruct (p ch) eqn:P; [|intros []].
    intros [<-|[]]. exists ch. split; [assumption|].
    apply reads_cons. exists tl. split; [assumption|]. now apply reads_nil.
  - intros (ch & P & H). apply reads_cons in H. destruct H as (tl & R & H).
    apply reads_nil in H. rewrite R, P. now left.
Qed.

Lemma one_accepts (p : ascii -> bool) (x : State) (ch : ascii) (tl : string) :
  rest x = String ch tl -> p ch = true ->
  In (mkState (S (endIndex x)) tl (capture1 x)) (one p x).
Proof. intros R P. unfold one. rewrite R, P. now left. Qed.

(** Iterating a one-character matcher reads a run of accepted
    characters, of any length up to the fuel. *)
Lemma in_iterate_one (p : ascii -> bool) (fuel : nat) (x y : State) :
  In y (iterate (one p) fuel x) <->
  exists run, Str.forallb p run = true /\ String.length run <= fuel /\ reads x run y.
Proof.
  revert x. induction fuel as [|fuel IH]; intros x; simpl.
  - split.
    + intros [<-|[]]. exists "".
      split; [reflexivity | split; [simpl; lia | now apply reads_nil]].
    + intros ([|c run] & _ & L & H); simpl in L; [|lia].
      left. symmetry. now apply reads_nil.
  - rewrite in_app_iff, in_flat_map. split.
    + intros [(x1 & H1 & H)|[<-|[]]].
      * apply in_one in H1. destruct H1 as (ch & P & H1).
        destruct (endIndex x1 =? endIndex x)%nat; [destruct H|].
        apply IH in H. destruct H as (run & F & L & H).
        exists (String ch run). simpl. rewrite P, F.
        split; [reflexivity | split; [lia | exact (reads_trans H1 H)]].
      * exists "". split; [reflexivity | split; [simpl; lia | now apply reads_nil]].
    + intros ([|ch run] & F & L & H).
      * right. left. symmetry. now apply reads_nil.
      * left. simpl in F, L. apply andb_true_iff in F. destruct F as [P F].
        apply reads_cons in H. destruct H as (tl & R & H).
        exists (mkState (S (endIndex x)) tl (capture1 x)). split.
        -- eapply one_accepts; eassumption.
        -- cbn [endIndex]. destruct (Nat.eqb_spec (S (endIndex x)) (endIndex x)); [lia|].
           apply (proj2 (IH _)). exists run. split; [assumption | split; [lia | assumption]].
Qed.

Lemma in_Seq (ic : bool) (r1 r2 : regex) (x z : State) :
  In z (m ic (Seq r1 r2) x) <-> exists y, In y (m ic r1 x) /\ In z (m ic r2 y).
Proof. simpl. apply in_flat_map. Qed.

Lemma in_Lit (s : string) (x y : State) :
  In y (m false (Lit s) x) <-> reads x s y.
Proof.
  revert x. induction s as [|c s IH]; intros x.
  - simpl. rewrite reads_nil. split; [intros [<-|[]]; reflexivity | intros ->; now left].
  - change (Lit (String c s)) with (Seq (Char c) (Lit s)). rewrite in_Seq. split.
    + intros (x1 & H1 & H). apply IH in H. apply in_one in H1.
      destruct H1 as (ch & E & H1). apply Ascii.eqb_eq in E. simpl in E. subst ch.
      exact (reads_trans H1 H).
    + intros H. apply reads_cons in H. destruct H as (tl & R & H).
      exists (mkState (S (endIndex x)) tl (capture1 x)). split; [|now apply IH].
      eapply one_accepts; [eassumption | apply Ascii.eqb_refl].
Qed.

(** The class [[0-9]] accepts the digits, with or without the [i] flag. *)
Lemma digit_class (ic : bool) (ch : ascii) :
  existsb (fun a => (canonicalize ic a =? canonicalize ic ch)%char) (rangeChars "0" "9")
  = Str.isDigit ch.
Proof. destruct ic, ch as [[] [] [] [] [] [] [] []]; reflexivity. Qed.

Lemma in_digits (ic : bool) (x y : State) :
  In y (m ic (Plus (Range "0" "9")) x) <->
  exists digits, digits <> "" /\ Str.forallb Str.isDigit digits = true /\ reads x digits y.
Proof.
  unfold Plus. rewrite in_Seq.
  change (m ic (Range "0" "9")) with
    (one (fun ch => existsb (fun a => (canonicalize ic a =? canonicalize ic ch)%char)
                            (rangeChars "0" "9"))).
  change (m ic (Star (Range "0" "9"))) with
    (fun x => iterate
       (one (fun ch => existsb (fun a => (canonicalize ic a =? canonicalize ic ch)%char)
                               (rangeChars "0" "9")))
       (S (String.length (rest x))) x).
  split.
  - intros (x1 & H1 & H). apply in_one in H1. destruct H1 as (d & D & H1).
    apply in_iterate_one in H. destruct H as (run & F & _ & H).
    rewrite digit_class in D. exists (String d run). split; [discriminate|].
    split; [|exact (reads_trans H1 H)].
    simpl. rewrite D. simpl.
    now rewrite <- (forallb_ext _ _ run (digit_class ic)).
  - intros ([|d run] & N & F & H); [congruence|].
    simpl in F. apply andb_true_iff in F. destruct F as [D F].
    apply reads_cons in H. destruct H as (tl & R & H).
    exists (mkState (S (endIndex x)) tl (capture1 x)). split.
    + eapply one_accepts; [eassumption | now rewrite digit_class].
    + apply in_iterate_one. exists run. split; [|split; [|assumption]].
      * now rewrite (forallb_ext _ _ run (digit_class ic)).
      * simpl. destruct H as (R' & _). simpl in R'. rewrite R', length_append. lia.
Qed.

Lemma in_letter_digits (ic : bool) (c : ascii) (x y : State) :
  In y (m ic (Seq (Char c) (Plus (Range "0" "9"))) x) <->
  exists ch digits,
    canonicalize ic ch = canonicalize ic c /\
    digits <> "" /\ Str.forallb Str.isDigit digits = true /\
    reads x (String ch digits) y.
Proof.
  rewrite in_Seq. split.
  - intros (x1 & H1 & H). apply in_one in H1. destruct H1 as (ch & E & H1).
    apply Ascii.eqb_eq in E. apply in_digits in H. destruct H as (digits & N & F & H).
    exists ch, digits. repeat (split; [assumption|]). exact (reads_trans H1 H).
  - intros (ch & digits & E & N & F & H).
    apply reads_cons in H. destruct H as (tl & R & H).
    exists (mkState (S (endIndex x)) tl (capture1 x)). split.
    + eapply one_accepts; [eassumption | now apply Ascii.eqb_eq].
    + apply in_digits. exists digits. auto.
Qed.

(** ** The matcher only moves forward, and the fuel of [*] is enough *)

Lemma advances_refl (x : State) : advances x x.
Proof. exists "". simpl. split; [reflexivity | lia]. Qed.

Lemma advances_trans (x y z : State) : advances x y -> advances y z -> advances x z.
Proof.
  intros (a & R1 & E1) (b & R2 & E2). exists (a ++ b).
  rewrite append_assoc, length_append, <- R2. split; [assumption | lia].
Qed.

Lemma iterate_advances (body : State -> list State) :
  (forall x y, In y (body x) -> advances x y) ->
  forall fuel x y, In y (iterate body fuel x) -> advances x y.
Proof.
  intros Hbody. induction fuel as [|fuel IH]; intros x y; simpl.
  - intros [<-|[]]. apply advances_refl.
  - rewrite in_app_iff, in_flat_map. intros [(x1 & H1 & H)|[<-|[]]].
    + destruct (endIndex x1 =? endIndex x)%nat; [destruct H|].
      exact (advances_trans (Hbody _ _ H1) (IH _ _ H)).
    + apply advances_refl.
Qed.

Lemma m_advances (ic : bool) (r : regex) :
  forall x y, In y (m ic r x) -> advances x y.
Proof.
  induction r as [|c| |lo hi|r1 IH1 r2 IH2|r IH|r IH| |]; intros x y.
  - intros [<-|[]]. apply advances_refl.
  - intros H. apply in_one in H. destruct H as (ch & _ & R & E & _). now exists (String ch "").
  - intros H. apply in_one in H. destruct H as (ch & _ & R & E & _). now exists (String ch "").
  - intros H. apply in_one in H. destruct H as (ch & _ & R & E & _). now exists (String ch "").
  - rewrite in_Seq. intros (x1 & H1 & H).
    exact (advances_trans (IH1 _ _ H1) (IH2 _ _ H)).
  - exact (iterate_advances _ IH _ x y).
  - simpl. rewrite in_map_iff. intros (x1 & <- & H). apply IH in H.
    destruct H as (consumed & R & E). now exists consumed.
  - simpl. destruct (endIndex x =? 0)%nat; [|intros []]. intros [<-|[]]. apply advances_refl.
  - simpl. destruct (rest x); [|intros []]. intros [<-|[]]. apply advances_refl.
Qed.

Lemma flat_map_ext_In {A B} (f g : A -> list B) (l : list A) :
  (forall a, In a l -> f a = g a) -> flat_map f l = flat_map g l.
Proof.
  induction l as [|a l IH]; simpl; intros H; [reflexivity|].
  rewrite (H a) by now left. rewrite IH; [reflexivity|]. intros; apply H; now right.
Qed.

Lemma iterate_fuel_S (body : State -> list State) :
  (forall x y, In y (body x) -> advances x y) ->
  forall fuel x, String.length (rest x) < fuel ->
                 iterate body (S fuel) x = iterate body fuel x.
Proof.
  intros Hbody. induction fuel as [|fuel IH]; intros x L; [lia|].
  change (iterate body (S (S fuel)) x) with
    (flat_map (fun y => if (endIndex y =? endIndex x)%nat then []
                        else iterate body (S fuel) y) (body x) ++ [x])%list.
  change (iterate body (S fuel) x) with
    (flat_map (fun y => if (endIndex y =? endIndex x)%nat then []
                        else iterate body fuel y) (body x) ++ [x])%list.
  f_equal. apply flat_map_ext_In. intros y Hy.
  destruct (Nat.eqb_spec (endIndex y) (endIndex x)) as [|N]; [reflexivity|].
  apply IH. destruct (Hbody _ _ Hy) as (consumed & R & E).
  rewrite R, length_append in L. destruct consumed; simpl in *; lia.
Qed.

(** More fuel than the matcher starts [*] with changes nothing. *)
Lemma star_fuel (ic : bool) (r : regex) (x : State) (extra : nat) :
  iterate (m ic r) (extra + S (String.length (rest x))) x = m ic (Star r) x.
Proof.
  induction extra as [|extra IH]; [reflexivity|].
  rewrite <- IH. apply iterate_fuel_S; [apply m_advances | lia].
Qed.

(** ** [exec] *)

Lemma execFrom_None (ic : bool) (r : regex) (s : string) :
  forall i,
    execFrom ic r i s = None <->
    forall before after,
      s = before ++ after -> m ic r (mkState (i + String.length before) after None) = [].
Proof.
  induction s as [|c s IH]; intros i; simpl.
  - split.
    + destruct (m ic r (mkState i "" None)) eqn:E; [|discriminate].
      intros _ [|b before] after H; simpl in H; [|discriminate].
      subst after. simpl. now rewrite Nat.add_0_r.
    + intros H. specialize (H "" "" eq_refl). simpl in H.
      rewrite Nat.add_0_r in H. now rewrite H.
  - split.
    + destruct (m ic r (mkState i (String c s) None)) eqn:E; [|discriminate].
      intros H [|b before] after H'; simpl in H'.
      * subst after. simpl. now rewrite Nat.add_0_r.
      * injection H' as -> ->. simpl.
        rewrite Nat.add_succ_r. now apply (proj1 (IH (S i)) H).
    + intros H. pose proof (H "" _ eq_refl) as H0. simpl in H0.
      rewrite Nat.add_0_r in H0. rewrite H0. apply IH.
      intros before after ->. specialize (H (String c before) after eq_refl).
      simpl in H. now rewrite Nat.add_succ_r in H.
Qed.

Lemma execFrom_Some (ic : bool) (r : regex) (s : string) :
  forall i y,
    execFrom ic r i s = Some y ->
    exists before after,
      s = before ++ after /\ In y (m ic r (mkState (i + String.length before) after None)).
Proof.
  induction s as [|c s IH]; intros i y; simpl.
  - destruct (m ic r (mkState i "" None)) as [|y0 l] eqn:E; [discriminate|].
    intros [= <-]. exists "", "". simpl. rewrite Nat.add_0_r, E. split; [reflexivity | now left].
  - destruct (m ic r (mkState i (String c s) None)) as [|y0 l] eqn:E.
    + intros H. apply IH in H. destruct H as (before & after & -> & H).
      exists (String c before), after. simpl. rewrite Nat.add_succ_r. now split.
    + intros [= <-]. exists "", (String c s). simpl. rewrite Nat.add_0_r, E.
      split; [reflexivity | now left].
Qed.

(** A pattern that starts with [^] matches at index 0 or nowhere. *)
Lemma exec_Bol (ic : bool) (r : regex) (s : string) :
  exec ic (Seq Bol r) s = hd_error (m ic (Seq Bol r) (mkState 0 s None)).
Proof.
  assert (T : forall s i, execFrom ic (Seq Bol r) (S i) s = None).
  { clear s. induction s as [|c s IH]; intros i; simpl; [reflexivity | apply IH]. }
  unfold exec. destruct s as [|c s]; cbn [execFrom].
  - now destruct (m ic (Seq Bol r) (mkState 0 "" None)).
  - destruct (m ic (Seq Bol r) (mkState 0 (String c s) None)); [apply T | reflexivity].
Qed.

End RegExpFacts.

(* ================================================================== *)
(** * Token classifier *)

Section Classifier.

Import RegExp RegExpFacts StrFacts.

Lemma canonicalize_q (ch : ascii) :
  canonicalize true ch = canonicalize true "q" <-> (ch = "q" \/ ch = "Q")%char.
Proof.
  split.
  - destruct ch as [[] [] [] [] [] [] [] []]; vm_compute; intros H;
      solve [discriminate H | now left | now right].
  - intros [->| ->]; reflexivity.
Qed.

Lemma isLookup_iff (token : string) : isLookup token = true <-> containsQid token.
Proof.
  unfold isLookup, exec, containsQid. split.
  - destruct (execFrom true qidPattern 0 token) as [y|] eqn:E; [intros _|discriminate].
    apply execFrom_Some in E. destruct E as (before & after & -> & H).
    apply in_letter_digits in H. destruct H as (ch & digits & C & N & F & R & _).
    simpl in R. apply canonicalize_q in C.
    exists before, ch, digits, (rest y). rewrite R. auto.
  - intros (before & q & digits & after & -> & Q & N & F).
    destruct (execFrom true qidPattern 0 (before ++ String q digits ++ after)) eqn:E;
      [reflexivity|].
    pose proof (proj1 (execFrom_None _ _ _ _) E before _ eq_refl) as H.
    assert (I : In (mkState (0 + String.length before + String.length (String q digits))
                      after None)
                   (m true qidPattern
                      (mkState (0 + String.length before) (String q digits ++ after) None))).
    { apply in_letter_digits. exists q, digits.
      split; [now apply canonicalize_q|]. repeat (split; [assumption|]).
      split; [reflexivity | split; reflexivity]. }
    rewrite H in I. destruct I.
Qed.

End Classifier.

(** C4. Every token is classified, and it is a direct lookup (the lookup
    query is sent and the redirect has delay 0) exactly when it contains,
    in either case, a letter Q followed by one or more digits; every other
    token is a search (the search query is sent, delay 1000).  No token is
    rejected. *)
Theorem classifier_lookup_iff_contains_qid (token : string) :
  (containsQid token /\
   prepareRequest token = (prepareSparqlLookupQuery token, 0)) \/
  (~ containsQid token /\
   prepareRequest token = (prepareSparqlSearchQuery token, 1000)).
Proof.
  unfold prepareRequest. destruct (isLookup token) eqn:E.
  - left. split; [now apply isLookup_iff | reflexivity].
  - right. split; [|reflexivity].
    intros H. apply isLookup_iff in H. congruence.
Qed.

(* ================================================================== *)
(** * Query builder *)

Section QueryBuilder.

Import Template StrFacts.

Lemma prepareSparqlLookupQuery_skeleton (id : string) :
  prepareSparqlLookupQuery id
  = textBefore lookupTemplate ++ Str.toUpperCase id ++ textAfter lookupTemplate.
Proof. reflexivity. Qed.

Lemma prepareSparqlSearchQuery_skeleton (term : string) :
  prepareSparqlSearchQuery term
  = textBefore searchTemplate ++ term ++ textAfter searchTemplate.
Proof. reflexivity. Qed.

(** The value can be read back from the query. *)
Lemma prepareSparqlSearchQuery_inj (a b : string) :
  prepareSparqlSearchQuery a = prepareSparqlSearchQuery b -> a = b.
Proof.
  rewrite !prepareSparqlSearchQuery_skeleton. intros H.
  apply append_inv_head in H. now apply append_inv_tail in H.
Qed.

Lemma prepareSparqlLookupQuery_inj (a b : string) :
  prepareSparqlLookupQuery a = prepareSparqlLookupQuery b ->
  Str.toUpperCase a = Str.toUpperCase b.
Proof.
  rewrite !prepareSparqlLookupQuery_skeleton. intros H.
  apply append_inv_head in H. now apply append_inv_tail in H.
Qed.

Example prepareSparqlLookupQuery_q42 :
  prepareSparqlLookupQuery "q42"
  = textBefore lookupTemplate ++ "Q42" ++ textAfter lookupTemplate.
Proof. reflexivity. Qed.

End QueryBuilder.

(** C5. The lookup query is a fixed text, the same for every identifier,
    with the upper-cased identifier put in at its one substitution; the
    search query is a fixed text with the term put in at its one
    substitution. *)
Theorem queries_embed_value_once :
  (Template.substitutions lookupTemplate = 1 /\
   exists before after,
     forall id, prepareSparqlLookupQuery id = before ++ Str.toUpperCase id ++ after) /\
  (Template.substitutions searchTemplate = 1 /\
   exists before after,
     forall term, prepareSparqlSearchQuery term = before ++ term ++ after).
Proof.
  split; (split; [reflexivity|]).
  - exists (Template.textBefore lookupTemplate), (Template.textAfter lookupTemplate).
    exact prepareSparqlLookupQuery_skeleton.
  - exists (Template.textBefore searchTemplate), (Template.textAfter searchTemplate).
    exact prepareSparqlSearchQuery_skeleton.
Qed.

(* ================================================================== *)
(** * Permalinks *)

Section Permalink.

Import RegExp RegExpFacts StrFacts.

(** The digits after the last [Q] are determined by the string. *)
Lemma digits_after_last_Q (a b d1 d2 : string) :
  a ++ String "Q" d1 = b ++ String "Q" d2 ->
  Str.forallb Str.isDigit d1 = true -> Str.forallb Str.isDigit d2 = true ->
  d1 = d2.
Proof.
  revert b. induction a as [|c a IH]; intros [|c' b]; simpl; intros H F1 F2.
  - now injection H.
  - injection H as _ ->. rewrite forallb_append in F1. simpl in F1.
    rewrite andb_false_r in F1. discriminate.
  - injection H as _ <-. rewrite forallb_append in F2. simpl in F2.
    rewrite andb_false_r in F2. discriminate.
  - injection H as _ H. now apply (IH b).
Qed.

Lemma isEntityUri_unique (uri q1 q2 : string) :
  isEntityUri uri q1 -> isEntityUri uri q2 -> q1 = q2.
Proof.
  intros (b1 & d1 & U1 & -> & _ & F1 & _) (b2 & d2 & U2 & -> & _ & F2 & _).
  f_equal. rewrite U1 in U2. rewrite <- !append_assoc in U2.
  exact (digits_after_last_Q _ _ _ _ U2 F1 F2).
Qed.

(** What the pattern of [generatePermalink] matches at index 0, and what
    it captures. *)
Lemma in_entityUriPattern (uri : string) (z : State) :
  In z (m false entityUriPattern (mkState 0 uri None)) <->
  exists qid, isEntityUri uri qid /\ z = mkState (String.length uri) "" (Some qid).
Proof.
  unfold entityUriPattern.
  rewrite in_Seq. split.
  - intros (x0 & H0 & H). simpl in H0. destruct H0 as [<-|[]].
    apply in_Seq in H. destruct H as (x1 & H1 & H).
    apply (in_iterate_one (fun ch => negb (isLineTerminator ch))) in H1.
    destruct H1 as (before & NL & _ & R1 & E1 & C1). simpl in R1, E1, C1.
    apply in_Seq in H. destruct H as (x2 & H2 & H).
    apply in_Lit in H2. destruct H2 as (R2 & E2 & C2).
    apply in_Seq in H. destruct H as (g & Hg & H).
    simpl in H. destruct (rest g) eqn:Rg; [|destruct H]. destruct H as [<-|[]].
    change (m false (Group (Seq (Char "Q") (Plus (Range "0" "9")))) x2) with
      (List.map (fun y => mkState (endIndex y) (rest y)
                            (Some (substring 0 (endIndex y - endIndex x2) (rest x2))))
                (m false (Seq (Char "Q") (Plus (Range "0" "9"))) x2)) in Hg.
    apply in_map_iff in Hg. destruct Hg as (h & <- & Hh). simpl in Rg.
    apply in_letter_digits in Hh.
    destruct Hh as (ch & digits & C & N & F & R3 & E3 & C3). simpl in C. subst ch.
    rewrite Rg, append_nil_r in R3.
    exists (String "Q" digits). split.
    + exists before, digits. rewrite R1, R2, R3. auto.
    + apply state_eq; simpl.
      * rewrite E3, E2, E1, R1, R2, R3, !length_append. simpl. lia.
      * assumption.
      * f_equal. rewrite E3, R3.
        replace (endIndex x2 + String.length (String "Q" digits) - endIndex x2)
          with (String.length (String "Q" digits)) by lia.
        apply substring_0_length.
  - intros (qid & (before & digits & -> & -> & N & F & NL) & ->).
    exists (mkState 0 (before ++ "/entity/" ++ String "Q" digits) None).
    split; [now left|].
    apply in_Seq.
    exists (mkState (String.length before) ("/entity/" ++ String "Q" digits) None). split.
    { apply (in_iterate_one (fun ch => negb (isLineTerminator ch))).
      exists before. split; [assumption|]. split; [simpl; rewrite length_append; lia|].
      split; [reflexivity | split; reflexivity]. }
    apply in_Seq.
    exists (mkState (String.length before + 8) (String "Q" digits) None). split.
    { apply in_Lit. split; [reflexivity | split; reflexivity]. }
    apply in_Seq.
    exists (mkState (String.length (before ++ "/entity/" ++ String "Q" digits)) ""
                    (Some (String "Q" digits))).
    split; [|now left].
    change (m false (Group (Seq (Char "Q") (Plus (Range "0" "9"))))
              (mkState (String.length before + 8) (String "Q" digits) None)) with
      (List.map (fun y => mkState (endIndex y) (rest y)
                            (Some (substring 0 (endIndex y - (String.length before + 8))
                                             (String "Q" digits))))
                (m false (Seq (Char "Q") (Plus (Range "0" "9")))
                   (mkState (String.length before + 8) (String "Q" digits) None))).
    apply in_map_iff.
    exists (mkState (String.length before + 8 + String.length (String "Q" digits)) "" None).
    split.
    + apply state_eq; simpl.
      * rewrite !length_append. simpl. lia.
      * reflexivity.
      * f_equal.
        replace (String.length before + 8 + S (String.length digits)
                 - (String.length before + 8))
          with (String.length (String "Q" digits)) by (simpl; lia).
        exact (substring_0_length (String "Q" digits)).
    + apply in_letter_digits. exists "Q"%char, digits.
      split; [reflexivity|]. repeat (split; [assumption|]).
      split; [simpl; now rewrite append_nil_r | split; reflexivity].
Qed.

Variable BASE_HOST : string.

Lemma exec_entityUriPattern (uri : string) :
  exec false entityUriPattern uri
  = hd_error (m false entityUriPattern (mkState 0 uri None)).
Proof. apply exec_Bol. Qed.

Lemma generatePermalink_Some (uri qid : string) :
  isEntityUri uri qid ->
  generatePermalink BASE_HOST uri = Some ("//" ++ Str.toLowerCase qid ++ "." ++ BASE_HOST).
Proof.
  intros U. unfold generatePermalink. rewrite exec_entityUriPattern.
  destruct (m false entityUriPattern (mkState 0 uri None)) as [|y l] eqn:E.
  - exfalso.
    pose proof (proj2 (in_entityUriPattern uri _) (ex_intro _ qid (conj U eq_refl))) as I.
    rewrite E in I. destruct I.
  - assert (I : In y (m false entityUriPattern (mkState 0 uri None)))
      by (rewrite E; now left).
    apply in_entityUriPattern in I. destruct I as (qid' & U' & ->).
    rewrite (isEntityUri_unique U' U). reflexivity.
Qed.

Lemma generatePermalink_None (uri : string) :
  (forall qid, ~ isEntityUri uri qid) -> generatePermalink BASE_HOST uri = None.
Proof.
  intros U. unfold generatePermalink. rewrite exec_entityUriPattern.
  destruct (m false entityUriPattern (mkState 0 uri None)) as [|y l] eqn:E;
    [reflexivity|].
  assert (I : In y (m false entityUriPattern (mkState 0 uri None)))
    by (rewrite E; now left).
  apply in_entityUriPattern in I. destruct I as (qid & U' & _).
  destruct (U qid U').
Qed.

Lemma generatePermalink_digits (before digits : string) :
  Str.forallb (fun c => negb (isLineTerminator c)) before = true ->
  digits <> "" -> Str.forallb Str.isDigit digits = true ->
  generatePermalink BASE_HOST (before ++ "/entity/" ++ String "Q" digits)
  = Some ("//" ++ String "q" digits ++ "." ++ BASE_HOST).
Proof.
  intros NL N F.
  rewrite (@generatePermalink_Some _ (String "Q" digits)).
  - unfold Str.toLowerCase. cbn [Str.map]. fold (Str.toLowerCase digits).
    now rewrite (toLowerCase_digits _ F).
  - now exists before, digits.
Qed.

Lemma generatePermalink_defined (uri : string) :
  generatePermalink BASE_HOST uri <> None <-> exists qid, isEntityUri uri qid.
Proof.
  split.
  - intros H. unfold generatePermalink in H. rewrite exec_entityUriPattern in H.
    destruct (m false entityUriPattern (mkState 0 uri None)) as [|y l] eqn:E;
      [now destruct H|].
    assert (I : In y (m false entityUriPattern (mkState 0 uri None)))
      by (rewrite E; now left).
    apply in_entityUriPattern in I. destruct I as (qid & U & _). now exists qid.
  - intros (qid & U). now rewrite (generatePermalink_Some U).
Qed.

End Permalink.

(** C9. For a URI of the shape [.../entity/Q<digits>], the permalink is
    [//], the identifier in lower case, a dot and the base domain; a URI
    ending in [/entity/Q42] with base domain [wikimark.net] gives
    [//q42.wikimark.net]; for a URI of any other shape the derivation
    fails. *)
Theorem generatePermalink_of_entity_uri (BASE_HOST uri : string) :
  (forall qid,
     isEntityUri uri qid ->
     generatePermalink BASE_HOST uri
     = Some ("//" ++ Str.toLowerCase qid ++ "." ++ BASE_HOST)) /\
  (isEntityUri uri "Q42" ->
   generatePermalink "wikimark.net" uri = Some "//q42.wikimark.net") /\
  ((forall qid, ~ isEntityUri uri qid) -> generatePermalink BASE_HOST uri = None).
Proof.
  split; [|split].
  - intros qid. apply generatePermalink_Some.
  - intros U. now rewrite (generatePermalink_Some "wikimark.net" U).
  - apply generatePermalink_None.
Qed.

Lemma generatePermalink_of_entity_uri_witness :
  isEntityUri "http://www.wikidata.org/entity/Q42" "Q42" /\
  generatePermalink "wikimark.net" "http://www.wikidata.org/entity/Q42"
  = Some "//q42.wikimark.net" /\
  (forall qid, ~ isEntityUri "E1" qid) /\
  generatePermalink "wikimark.net" "E1" = None.
Proof.
  assert (U : isEntityUri "http://www.wikidata.org/entity/Q42" "Q42").
  { exists "http://www.wikidata.org", "42". repeat split. discriminate. }
  assert (N : forall qid, ~ isEntityUri "E1" qid).
  { intros qid (before & digits & E & -> & _).
    destruct before as [|a [|b [|c before]]]; simpl in E; discriminate E. }
  split; [exact U|]. split; [|split; [exact N|]].
  - exact (proj1 (proj2 (generatePermalink_of_entity_uri "wikimark.net" _)) U).
  - exact (proj2 (proj2 (generatePermalink_of_entity_uri "wikimark.net" "E1")) N).
Defined.

(* ================================================================== *)
(** * Facts about objects used as maps *)

Module ObjFacts.

Import Obj.

Section WithValues.

Context {V : Type}.

Lemma has_names (key : string) (o : t V) : has key o = true <-> In key (names o).
Proof.
  induction o as [|[k v] o IH]; simpl; [split; [discriminate | intros []]|].
  rewrite orb_true_iff, String.eqb_eq, IH. reflexivity.
Qed.

Lemma has_false_names (key : string) (o : t V) : has key o = false <-> ~ In key (names o).
Proof. rewrite <- has_names. destruct (has key o); split; congruence. Qed.

Lemma has_get (key : string) (o : t V) : has key o = true <-> get key o <> None.
Proof.
  induction o as [|[k v] o IH]; simpl; [split; [discriminate | congruence]|].
  destruct (k =? key); simpl; [split; [discriminate | reflexivity] | exact IH].
Qed.

Lemma get_None (key : string) (o : t V) : get key o = None <-> has key o = false.
Proof.
  pose proof (has_get key o) as H.
  destruct (has key o), (get key o); split; try congruence; intros.
  - destruct (proj1 H eq_refl). assumption.
  - assert (X : Some v <> None) by discriminate. apply H in X. discriminate.
Qed.

Lemma get_In (key : string) (v : V) (o : t V) : get key o = Some v -> In (key, v) o.
Proof.
  induction o as [|[k v0] o IH]; simpl; [discriminate|].
  destruct (String.eqb_spec k key) as [->|N].
  - intros [= ->]. now left.
  - intros H. right. now apply IH.
Qed.

(** A new property goes last. *)
Lemma set_new (key : string) (v : V) (o : t V) :
  has key o = false -> set key v o = (o ++ [(key, v)])%list.
Proof.
  induction o as [|[k v0] o IH]; simpl; [reflexivity|].
  rewrite orb_false_iff. intros [N H]. now rewrite N, IH.
Qed.

Lemma get_last (key : string) (v : V) (o : t V) :
  has key o = false -> get key (o ++ [(key, v)])%list = Some v.
Proof.
  induction o as [|[k v0] o IH]; simpl; [now rewrite String.eqb_refl|].
  rewrite orb_false_iff. intros [N H]. now rewrite N, IH.
Qed.

Lemma set_last (key : string) (v v' : V) (o : t V) :
  has key o = false -> set key v' (o ++ [(key, v)])%list = (o ++ [(key, v')])%list.
Proof.
  induction o as [|[k v0] o IH]; simpl; [now rewrite String.eqb_refl|].
  rewrite orb_false_iff. intros [N H]. now rewrite N, IH.
Qed.

Lemma get_set_same (key : string) (v : V) (o : t V) : get key (set key v o) = Some v.
Proof.
  induction o as [|[k v0] o IH]; simpl; [now rewrite String.eqb_refl|].
  destruct (k =? key) eqn:E; simpl; rewrite E; [reflexivity | exact IH].
Qed.

Lemma adjust_absent (key : string) (f : V -> V) (o : t V) :
  has key o = false -> adjust key f o = o.
Proof.
  induction o as [|[k v0] o IH]; simpl; [reflexivity|].
  rewrite orb_false_iff. intros [N H]. now rewrite N, IH.
Qed.

(** Where the names are distinct, assigning to an existing property changes
    that property only. *)
Lemma set_existing (key : string) (v : V) (f : V -> V) (o : t V) :
  NoDup (names o) -> get key o = Some v -> set key (f v) o = adjust key f o.
Proof.
  induction o as [|[k v0] o IH]; simpl; [discriminate|].
  intros D. inversion D as [|? ? NI D']; subst.
  destruct (String.eqb_spec k key) as [->|N].
  - intros [= ->]. f_equal. symmetry. apply adjust_absent. now apply has_false_names.
  - intros H. f_equal. now apply IH.
Qed.

(** ** Inherited names and array indices *)

Lemma inherited_In (key : string) : inherited key = true <-> In key prototypeNames.
Proof.
  unfold inherited. rewrite existsb_exists. split.
  - intros (name & I & E). apply String.eqb_eq in E. now subst.
  - intros I. exists key. split; [assumption | apply String.eqb_refl].
Qed.

Lemma isIn_has (key : string) (o : t V) : inherited key = false -> isIn key o = has key o.
Proof. intros H. unfold isIn. rewrite H. apply orb_false_r. Qed.

Lemma isIn_inherited (key : string) (o : t V) : inherited key = true -> isIn key o = true.
Proof. intros H. unfold isIn. rewrite H. apply orb_true_r. Qed.

Lemma read_Own (key : string) (v : V) (o : t V) : read key o = Own v <-> get key o = Some v.
Proof.
  unfold read. destruct (get key o) as [v'|].
  - split; intros [= ->]; reflexivity.
  - destruct (inherited key); split; discriminate.
Qed.

Lemma arrayIndex_digits (key : string) (n : N) :
  arrayIndex key = Some n -> Str.forallb Str.isDigit key = true.
Proof.
  unfold arrayIndex. destruct key as [|c digits]; [discriminate|].
  destruct (Str.forallb Str.isDigit (String c digits)); [reflexivity | discriminate].
Qed.

Lemma isArrayIndex_digits (key : string) :
  Str.forallb Str.isDigit key = false -> isArrayIndex key = false.
Proof.
  intros F. unfold isArrayIndex. destruct (arrayIndex key) as [n|] eqn:E; [|reflexivity].
  apply arrayIndex_digits in E. congruence.
Qed.

(** ** The order of enumeration *)

Lemma Permutation_insertByIndex (n : N) (entry : string * V) (sorted : list (N * (string * V))) :
  Permutation (List.map snd (insertByIndex n entry sorted)) (entry :: List.map snd sorted).
Proof.
  induction sorted as [|[m e] sorted IH]; cbn [insertByIndex List.map snd]; [reflexivity|].
  destruct (n <? m)%N; cbn [List.map snd]; [reflexivity|].
  rewrite IH. apply perm_swap.
Qed.

Lemma Permutation_entries (o : t V) : Permutation (entries o) o.
Proof.
  unfold entries, named. induction o as [|entry o IH]; cbn [indexed filter]; [reflexivity|].
  unfold isArrayIndex at 1. destruct (arrayIndex (fst entry)) as [n|]; cbn [negb].
  - rewrite Permutation_insertByIndex. cbn [app]. now constructor.
  - rewrite <- Permutation_middle. now constructor.
Qed.

Lemma entries_nil (o : t V) : entries o = [] <-> o = [].
Proof.
  split.
  - intros E. pose proof (Permutation_entries o) as P. rewrite E in P.
    now apply Permutation_nil.
  - now intros ->.
Qed.

Lemma Forall_entries (P : string * V -> Prop) (o : t V) :
  Forall P (entries o) <-> Forall P o.
Proof.
  split; apply Permutation_Forall; [|symmetry]; apply Permutation_entries.
Qed.

(** Where no property is named by an array index, the properties are
    enumerated in creation order. *)
Lemma entries_named (o : t V) :
  Forall (fun entry : string * V => isArrayIndex (fst entry) = false) o -> entries o = o.
Proof.
  intros F. unfold entries, named.
  assert (I : indexed o = []).
  { induction F as [|entry o E F IH]; [reflexivity|]. cbn [indexed].
    unfold isArrayIndex in E. destruct (arrayIndex (fst entry)); [discriminate | exact IH]. }
  rewrite I. cbn [List.map app].
  induction F as [|entry o E F IH]; [reflexivity|].
  cbn [filter indexed] in *. rewrite E. cbn [negb]. f_equal. apply IH.
  unfold isArrayIndex in E. now destruct (arrayIndex (fst entry)).
Qed.

End WithValues.

(** The enumeration goes by the names only. *)
Lemma entries_map {V W} (f : V -> W) (o : t V) :
  entries (List.map (fun entry : string * V => (fst entry, f (snd entry))) o)
  = List.map (fun entry : string * V => (fst entry, f (snd entry))) (entries o).
Proof.
  set (g := fun entry : string * V => (fst entry, f (snd entry))).
  assert (I : forall n entry sorted,
             insertByIndex n (g entry) (List.map (fun x => (fst x, g (snd x))) sorted)
             = List.map (fun x => (fst x, g (snd x))) (insertByIndex n entry sorted)).
  { intros n entry sorted.
    induction sorted as [|[m e] sorted IH]; cbn [insertByIndex List.map fst snd]; [reflexivity|].
    destruct (n <? m)%N; cbn [List.map fst snd]; [reflexivity | now rewrite IH]. }
  assert (X : indexed (List.map g o) = List.map (fun x => (fst x, g (snd x))) (indexed o)).
  { induction o as [|entry o IH]; cbn [indexed List.map]; [reflexivity|].
    change (fst (g entry)) with (fst entry).
    destruct (arrayIndex (fst entry)); [|exact IH]. now rewrite IH, I. }
  assert (Y : named (List.map g o) = List.map g (named o)).
  { clear X. unfold named. induction o as [|entry o IH]; cbn [filter List.map]; [reflexivity|].
    change (fst (g entry)) with (fst entry).
    destruct (negb (isArrayIndex (fst entry))); cbn [List.map]; now rewrite IH. }
  unfold entries. rewrite X, Y, map_app, !map_map. reflexivity.
Qed.

End ObjFacts.

(** An entity URI of the shape [.../entity/Q<digits>] is an ordinary
    property name: it has a [/], which no numeral and no name of
    [Object.prototype] has. *)
Lemma isEntityUri_ordinary (uri qid : string) :
  isEntityUri uri qid -> Obj.isArrayIndex uri = false /\ Obj.inherited uri = false.
Proof.
  intros (before & digits & -> & _).
  set (noSlash := Str.forallb (fun c => negb (c =? "/")%char)).
  assert (S : noSlash (before ++ "/entity/" ++ qid) = false).
  { unfold noSlash. rewrite StrFacts.forallb_append. apply andb_false_r. }
  split.
  - apply ObjFacts.isArrayIndex_digits. rewrite StrFacts.forallb_append. apply andb_false_r.
  - destruct (Obj.inherited (before ++ "/entity/" ++ qid)) eqn:I; [|reflexivity].
    apply ObjFacts.inherited_In in I.
    assert (F : Forall (fun name => noSlash name = true) Obj.prototypeNames)
      by (repeat constructor).
    rewrite Forall_forall in F. rewrite (F _ I) in S. discriminate.
Qed.

Lemma generatePermalink_ordinary (BASE_HOST uri : string) :
  generatePermalink BASE_HOST uri <> None ->
  Obj.isArrayIndex uri = false /\ Obj.inherited uri = false.
Proof.
  intros H. apply generatePermalink_defined in H. destruct H as (qid & U).
  exact (isEntityUri_ordinary U).
Qed.

(* ================================================================== *)
(** * Result normalizer *)

Section Normalizer.

Import ObjFacts.

Lemma sameEntity_sym (a b : Binding * URL) :
  sameEntity (entityOf a) b = sameEntity (entityOf b) a.
Proof. unfold sameEntity. apply String.eqb_sym. Qed.

Lemma filter_none {A} (p : A -> bool) (l : list A) : existsb p l = false -> filter p l = [].
Proof.
  induction l as [|a l IH]; simpl; [reflexivity|].
  rewrite orb_false_iff. intros [-> H]. now apply IH.
Qed.

Lemma firstSeen_snoc (rows : list (Binding * URL)) (row : Binding * URL) :
  firstSeen (rows ++ [row])
  = (firstSeen rows ++ if existsb (sameEntity (entityOf row)) rows then [] else [row])%list.
Proof.
  induction rows as [|a rows IH]; simpl.
  - reflexivity.
  - rewrite IH, filter_app. f_equal. f_equal.
    rewrite (sameEntity_sym row a).
    destruct (existsb (sameEntity (entityOf row)) rows); simpl.
    + now rewrite orb_true_r.
    + rewrite orb_false_r. now destruct (sameEntity (entityOf a) row).
Qed.

Lemma names_entityMap (rows : list (Binding * URL)) :
  Obj.names (entityMap rows) = List.map entityOf (firstSeen rows).
Proof. unfold Obj.names, entityMap. rewrite map_map. reflexivity. Qed.

Lemma in_firstSeen (uri : string) (rows : list (Binding * URL)) :
  In uri (List.map entityOf (firstSeen rows)) <-> existsb (sameEntity uri) rows = true.
Proof.
  induction rows as [|a rows IH]; simpl; [split; [intros [] | discriminate]|].
  assert (Q : sameEntity uri a = true <-> entityOf a = uri)
    by (unfold sameEntity; apply String.eqb_eq).
  rewrite orb_true_iff, <- IH, !in_map_iff, Q. split.
  - intros [E|(r & E & I)]; [now left|]. apply filter_In in I. right. exists r. tauto.
  - intros [E|(r & E & I)]; [now left|].
    destruct (String.eqb_spec (entityOf a) uri) as [E'|N]; [now left|].
    right. exists r. split; [assumption|]. apply filter_In. split; [assumption|].
    unfold sameEntity. rewrite E. apply negb_true_iff. apply String.eqb_neq. congruence.
Qed.

Lemma has_entityMap (uri : string) (rows : list (Binding * URL)) :
  Obj.has uri (entityMap rows) = existsb (sameEntity uri) rows.
Proof.
  pose proof (has_names uri (entityMap rows)) as H.
  rewrite names_entityMap, in_firstSeen in H.
  destruct (Obj.has uri (entityMap rows)), (existsb (sameEntity uri) rows);
    try reflexivity; [symmetry|]; now apply H.
Qed.

(** One entity per URI. *)
Lemma NoDup_names_entityMap (rows : list (Binding * URL)) :
  NoDup (Obj.names (entityMap rows)).
Proof.
  rewrite names_entityMap. induction rows as [|a rows IH]; simpl; constructor.
  - rewrite in_map_iff. intros (r & E & I). apply filter_In in I. destruct I as [_ N].
    unfold sameEntity in N. rewrite E, String.eqb_refl in N. discriminate.
  - clear - IH. induction (firstSeen rows) as [|r l IHl]; simpl; [constructor|].
    inversion IH as [|? ? NI D]; subst.
    destruct (negb (sameEntity (entityOf a) r)); simpl; [|now apply IHl].
    constructor; [|now apply IHl].
    rewrite in_map_iff in *. intros (r' & E & I). apply filter_In in I.
    apply NI. exists r'. tauto.
Qed.

(** One more row: its destination goes to the end of its entity's list,
    and an entity that was not there yet is added last. *)
Lemma entityMap_snoc (rows : list (Binding * URL)) (row : Binding * URL) :
  entityMap (rows ++ [row])
  = (Obj.adjust (entityOf row) (pushed (destination row)) (entityMap rows)
     ++ if existsb (sameEntity (entityOf row)) rows then []
        else [(entityOf row,
               mkEntity (itemLabel_value (fst row)) (itemDescription_value (fst row))
                        [destination row])])%list.
Proof.
  unfold entityMap, Obj.adjust. rewrite firstSeen_snoc, map_app, map_map. f_equal.
  - apply map_ext. intros r. cbn [fst snd]. rewrite filter_app, map_app. cbn [filter].
    rewrite (sameEntity_sym r row).
    change (sameEntity (entityOf row) r) with (entityOf r =? entityOf row).
    destruct (entityOf r =? entityOf row); [reflexivity|].
    simpl. now rewrite app_nil_r.
  - destruct (existsb (sameEntity (entityOf row)) rows) eqn:E; [reflexivity|].
    simpl. rewrite filter_app, (filter_none _ _ E). cbn [filter].
    change (sameEntity (entityOf row) row) with (entityOf row =? entityOf row).
    now rewrite String.eqb_refl.
Qed.

Variable URL_parse : string -> option URL.

Lemma pushWebsite_entityMap (rows : list (Binding * URL)) (row : Binding * URL) :
  pushWebsite (entityOf row) (destination row)
    (if negb (Obj.has (entityOf row) (entityMap rows))
     then Obj.set (entityOf row)
            (mkEntity (itemLabel_value (fst row)) (itemDescription_value (fst row)) [])
            (entityMap rows)
     else entityMap rows)
  = Some (entityMap (rows ++ [row])).
Proof.
  rewrite entityMap_snoc, <- has_entityMap. unfold pushWebsite.
  destruct (Obj.has (entityOf row) (entityMap rows)) eqn:H; simpl.
  - destruct (Obj.get (entityOf row) (entityMap rows)) as [e|] eqn:G.
    + rewrite app_nil_r. f_equal.
      exact (@set_existing Entity (entityOf row) e (pushed (destination row)) (entityMap rows)
               (NoDup_names_entityMap rows) G).
    + apply get_None in G. congruence.
  - rewrite (@set_new Entity _ _ _ H), (@get_last Entity _ _ _ H). simpl.
    rewrite (@set_last Entity _ _ _ _ H), (@adjust_absent Entity _ _ _ H). reflexivity.
Qed.

Lemma accepted_survivor (binding : Binding) (row : Binding * URL) :
  accepted URL_parse binding = true -> survivor URL_parse binding = Some row ->
  Obj.inherited (entityOf row) = false.
Proof.
  unfold accepted, survivor.
  destruct (URL_parse (website_value binding)) as [u|]; [|discriminate].
  destruct (isOnion u); [discriminate|]. cbn [orb]. intros A [= <-].
  now apply negb_true_iff in A.
Qed.

(** A row whose entity URI names a member of [Object.prototype] finds the
    name [in] the object, creates no entity, and throws where it reads the
    list of websites; every other row that is not skipped adds its
    destination. *)
Lemma transformBinding_entityMap (rows : list (Binding * URL)) (binding : Binding) :
  Forall (fun row => Obj.inherited (entityOf row) = false) rows ->
  transformBinding URL_parse (entityMap rows) binding
  = if accepted URL_parse binding
    then Some (entityMap (rows ++ match survivor URL_parse binding with
                                  | Some row => [row]
                                  | None => []
                                  end))
    else None.
Proof.
  intros F. unfold transformBinding, survivor, accepted.
  destruct (URL_parse (website_value binding)) as [u|]; [|reflexivity].
  destruct (isOnion u); [now rewrite app_nil_r|]. cbn [orb].
  destruct (Obj.inherited (item_value binding)) eqn:I; cbn [negb].
  - rewrite (@isIn_inherited Entity _ _ I). cbn [negb]. unfold pushWebsite.
    assert (G : Obj.get (item_value binding) (entityMap rows) = None).
    { apply get_None. rewrite has_entityMap.
      destruct (existsb (sameEntity (item_value binding)) rows) eqn:E; [|reflexivity].
      apply existsb_exists in E. destruct E as (r & J & E). apply String.eqb_eq in E.
      rewrite Forall_forall in F. specialize (F r J). congruence. }
    now rewrite G.
  - rewrite (@isIn_has Entity _ _ I). exact (pushWebsite_entityMap rows (binding, u)).
Qed.

Lemma transformBindings_entityMap (bindings : list Binding) :
  forall rows,
    Forall (fun row => Obj.inherited (entityOf row) = false) rows ->
    transformBindings URL_parse (entityMap rows) bindings
    = if forallb (accepted URL_parse) bindings
      then Some (entityMap (rows ++ survivors URL_parse bindings))
      else None.
Proof.
  induction bindings as [|b bindings IH]; intros rows F; simpl.
  - now rewrite app_nil_r.
  - rewrite (transformBinding_entityMap b F).
    destruct (accepted URL_parse b) eqn:A; [|reflexivity].
    simpl. rewrite IH, <- app_assoc; [reflexivity|].
    apply Forall_app. split; [exact F|].
    destruct (survivor URL_parse b) as [row|] eqn:S; constructor; [|constructor].
    exact (accepted_survivor b A S).
Qed.

(** The normalizer computes the entity map of the surviving rows, or
    throws: when a URL does not parse, or when a row that is not skipped
    has an entity URI that names a member of [Object.prototype]. *)
Lemma transformSparqlResponse_entityMap (bindings : list Binding) :
  transformSparqlResponse URL_parse bindings
  = if forallb (accepted URL_parse) bindings
    then Some (entityMap (survivors URL_parse bindings))
    else None.
Proof. exact (transformBindings_entityMap bindings (@Forall_nil _ _)). Qed.

Lemma get_entityMap (rows : list (Binding * URL)) (uri : string) (e : Entity) :
  Obj.get uri (entityMap rows) = Some e ->
  websites e = List.map destination (filter (sameEntity uri) rows).
Proof.
  intros G. apply get_In in G. unfold entityMap in G. apply in_map_iff in G.
  destruct G as (r & [= <- <-] & _). reflexivity.
Qed.

Lemma in_survivors (binding : Binding) (u : URL) (bindings : list Binding) :
  In (binding, u) (survivors URL_parse bindings) <->
  In binding bindings /\ survivor URL_parse binding = Some (binding, u).
Proof.
  unfold survivors. rewrite in_flat_map. split.
  - intros (b & I & H). destruct (survivor URL_parse b) as [r|] eqn:E; [|destruct H].
    destruct H as [->|[]]. assert (b = binding); [|subst; now split].
    unfold survivor in E. destruct (URL_parse (website_value b)); [|discriminate].
    destruct (isOnion u0); [discriminate|]. now injection E.
  - intros [I E]. exists binding. rewrite E. split; [assumption | now left].
Qed.

Lemma survivors_app (l1 l2 : list Binding) :
  survivors URL_parse (l1 ++ l2) = (survivors URL_parse l1 ++ survivors URL_parse l2)%list.
Proof. apply flat_map_app. Qed.

Lemma firstSeen_incl (rows : list (Binding * URL)) (row : Binding * URL) :
  In row (firstSeen rows) -> In row rows.
Proof.
  induction rows as [|a rows IH]; simpl; [intros []|].
  intros [->|I]; [now left|]. apply filter_In in I. right. now apply IH.
Qed.

(** The names of the map are entity URIs of rows. *)
Lemma entityMap_names (P : string -> Prop) (bindings : list Binding) :
  Forall (fun binding => P (item_value binding)) bindings ->
  Forall (fun entry : string * Entity => P (fst entry))
         (entityMap (survivors URL_parse bindings)).
Proof.
  intros F. apply Forall_forall. intros [uri e] I. unfold entityMap in I.
  apply in_map_iff in I. destruct I as ([b u] & [= <- <-] & I).
  apply firstSeen_incl, in_survivors in I. destruct I as [I _].
  rewrite Forall_forall in F. exact (F b I).
Qed.

Lemma accepted_not_inherited (binding : Binding) :
  Obj.inherited (item_value binding) = false ->
  accepted URL_parse binding = parses URL_parse binding.
Proof.
  intros I. unfold accepted, parses. rewrite I.
  destruct (URL_parse (website_value binding)); [apply orb_true_r | reflexivity].
Qed.

Lemma forallb_accepted_ordinary (bindings : list Binding) :
  Forall (fun binding => Obj.ordinary (item_value binding) = true) bindings ->
  forallb (accepted URL_parse) bindings = forallb (parses URL_parse) bindings.
Proof.
  induction 1 as [|b bindings O F IH]; [reflexivity|]. cbn [forallb].
  unfold Obj.ordinary in O. apply andb_true_iff in O. destruct O as [_ O].
  apply negb_true_iff in O. now rewrite IH, (accepted_not_inherited _ O).
Qed.

Lemma entries_entityMap_ordinary (bindings : list Binding) :
  Forall (fun binding => Obj.ordinary (item_value binding) = true) bindings ->
  Obj.entries (entityMap (survivors URL_parse bindings))
  = entityMap (survivors URL_parse bindings).
Proof.
  intros F. apply entries_named.
  apply (entityMap_names (fun key => Obj.isArrayIndex key = false)).
  eapply Forall_impl; [|exact F]. intros b O. unfold Obj.ordinary in O.
  apply andb_true_iff in O. destruct O as [O _]. now apply negb_true_iff in O.
Qed.

(** No destination of the map is an onion host, and no entity is left
    without a destination. *)
Lemma entityMap_survivors_websites (bindings : list Binding) :
  Forall (fun entry : string * Entity =>
            websites (snd entry) <> [] /\
            Forall (fun w => isOnion (url w) = false) (websites (snd entry)))
         (entityMap (survivors URL_parse bindings)).
Proof.
  apply Forall_forall. intros [uri e] I. unfold entityMap in I.
  apply in_map_iff in I. destruct I as (r & [= <- <-] & I). cbn [snd websites]. split.
  - assert (In r (filter (sameEntity (entityOf r)) (survivors URL_parse bindings))) as J.
    { apply filter_In. split; [|apply String.eqb_refl]. now apply firstSeen_incl. }
    destruct (filter _ _); [destruct J | discriminate].
  - apply Forall_forall. intros w J. apply in_map_iff in J. destruct J as ([b u] & <- & J).
    apply filter_In in J. destruct J as [J _]. apply in_survivors in J. destruct J as [_ J].
    unfold survivor in J. destruct (URL_parse (website_value b)) as [u'|]; [|discriminate].
    destruct (isOnion u') eqn:O; [discriminate|]. injection J as <-. exact O.
Qed.

(** Where no entity URI is an array index, the first entry of the map is
    the entity of the first surviving row, and the redirect goes to that
    row's destination. *)
Lemma entityMap_first_entry (first : Binding * URL) (rows : list (Binding * URL)) :
  Forall (fun entry : string * Entity => Obj.isArrayIndex (fst entry) = false)
         (entityMap (first :: rows)) ->
  exists item destinations others,
    Obj.entries (entityMap (first :: rows)) = (entityOf first, item) :: others /\
    websites item = destination first :: destinations /\
    redirectTarget (entityMap (first :: rows)) = Some (url (destination first)).
Proof.
  intros F. unfold redirectTarget. rewrite (entries_named F).
  unfold entityMap. cbn [firstSeen List.map filter].
  change (sameEntity (entityOf first) first) with (entityOf first =? entityOf first).
  rewrite String.eqb_refl. cbn [List.map websites].
  eexists _, _, _. repeat split.
Qed.

End Normalizer.

(** The claim C1 as it stands fails on the code.  A row whose entity URI
    is the numeral of an array index is enumerated before the entities
    created earlier: after the rows of ["10"] and ["2"] the map lists
    ["2"] first.  And a row whose entity URI names a member of
    [Object.prototype] makes the normalizer throw. *)
Lemma entities_are_not_listed_in_first_seen_order :
  let ten := mkBinding "10" "ten" "first row" "http://a.example/" "" in
  let two := mkBinding "2" "two" "second row" "http://b.example/" "" in
  let inherited := mkBinding "constructor" "c" "only row" "http://a.example/" "" in
  List.map entityOf (firstSeen (survivors basicURL [ten; two])) = ["10"; "2"] /\
  option_map (fun results => List.map fst (Obj.entries results))
             (transformSparqlResponse basicURL [ten; two])
  = Some ["2"; "10"] /\
  forallb (parses basicURL) [inherited] = true /\
  transformSparqlResponse basicURL [inherited] = None.
Proof. repeat split. Qed.

(** C1, amended: for rows whose entity URIs are ordinary names.  The
    normalizer returns the entity map of the surviving rows (when every
    URL parses; otherwise it throws): one entity per URI, created from the
    URI's first surviving row, enumerated in the order in which the URIs
    first appear, each with the destinations of all its surviving rows in
    row order.  On the scenario of the specification the map has the two
    entities E1 and E2, in this order, and E1 has one destination. *)
Theorem transformSparqlResponse_dedups_in_first_seen_order
  (URL_parse : string -> option URL) (bindings : list Binding) :
  Forall (fun binding => Obj.ordinary (item_value binding) = true) bindings ->
  let rows := survivors URL_parse bindings in
  transformSparqlResponse URL_parse bindings
  = (if forallb (parses URL_parse) bindings then Some (entityMap rows) else None) /\
  NoDup (List.map fst (Obj.entries (entityMap rows))) /\
  List.map fst (Obj.entries (entityMap rows)) = List.map entityOf (firstSeen rows) /\
  (forall uri e,
     Obj.read uri (entityMap rows) = Obj.Own e ->
     websites e = List.map destination (filter (sameEntity uri) rows)) /\
  (forall label1 description1 label2 description2 label3 description3 a b x,
     URL_parse "http://a.example/" = Some a -> hostname a = "a.example" ->
     URL_parse "http://b.example/" = Some b -> hostname b = "b.example" ->
     URL_parse "http://x.onion/" = Some x -> hostname x = "x.onion" ->
     option_map (@Obj.entries Entity)
       (transformSparqlResponse URL_parse
          (scenario label1 description1 label2 description2 label3 description3))
     = Some [ ("E1", mkEntity label1 description1 [mkWebsite a (Some PREFERRED)]);
              ("E2", mkEntity label2 description2 [mkWebsite b (Some NORMAL)]) ]).
Proof.
  intros O rows.
  pose proof (entries_entityMap_ordinary URL_parse O) as E. fold rows in E.
  split; [rewrite transformSparqlResponse_entityMap;
          now rewrite (forallb_accepted_ordinary URL_parse O)|].
  rewrite E. fold (Obj.names (entityMap rows)).
  split; [apply NoDup_names_entityMap|].
  split; [apply names_entityMap|].
  split; [intros uri e R; apply ObjFacts.read_Own in R; revert R; apply get_entityMap|].
  intros l1 d1 l2 d2 l3 d3 a b x Pa Ha Pb Hb Px Hx.
  unfold transformSparqlResponse, scenario, transformBindings, transformBinding.
  cbn [website_value item_value itemLabel_value itemDescription_value rank_value].
  rewrite Pa, Pb, Px. unfold isOnion. rewrite Ha, Hb, Hx. reflexivity.
Qed.

Lemma transformSparqlResponse_dedups_in_first_seen_order_witness :
  Forall (fun binding => Obj.ordinary (item_value binding) = true)
         (scenario "one" "first" "two" "second" "three" "third") /\
  option_map (@Obj.entries Entity)
    (transformSparqlResponse basicURL (scenario "one" "first" "two" "second" "three" "third"))
  = Some [ ("E1", mkEntity "one" "first"
                    [mkWebsite (mkURL "http://a.example/" "a.example") (Some PREFERRED)]);
           ("E2", mkEntity "two" "second"
                    [mkWebsite (mkURL "http://b.example/" "b.example") (Some NORMAL)]) ].
Proof.
  assert (O : Forall (fun binding => Obj.ordinary (item_value binding) = true)
                     (scenario "one" "first" "two" "second" "three" "third"))
    by (repeat constructor).
  split; [exact O|].
  exact (proj2 (proj2 (proj2 (proj2
           (transformSparqlResponse_dedups_in_first_seen_order basicURL O))))
           "one" "first" "two" "second" "three" "third"
           (mkURL "http://a.example/" "a.example")
           (mkURL "http://b.example/" "b.example")
           (mkURL "http://x.onion/" "x.onion")
           eq_refl eq_refl eq_refl eq_refl eq_refl eq_refl).
Defined.

(** C2. A row whose URL has a host ending in [.onion] is skipped: the
    result is the result for the rows without it, no destination of the
    map has an onion host, and the row's entity URI is absent from the map
    when no other row of that URI survives. *)
Theorem onion_row_is_skipped
  (URL_parse : string -> option URL)
  (before : list Binding) (row : Binding) (after : list Binding) (websiteUrl : URL) :
  URL_parse (website_value row) = Some websiteUrl ->
  (exists name, hostname websiteUrl = name ++ ".onion") ->
  transformSparqlResponse URL_parse (before ++ row :: after)
  = transformSparqlResponse URL_parse (before ++ after) /\
  forall entities,
    transformSparqlResponse URL_parse (before ++ row :: after) = Some entities ->
    Forall (fun entry : string * Entity =>
              Forall (fun w => isOnion (url w) = false) (websites (snd entry))) entities /\
    ((forall other,
        In other (before ++ after) -> item_value other = item_value row ->
        survivor URL_parse other = None) ->
     Obj.has (item_value row) entities = false).
Proof.
  intros P O. apply StrFacts.endsWith_iff in O. fold (isOnion websiteUrl) in O.
  assert (S : survivors URL_parse (before ++ row :: after)
              = survivors URL_parse (before ++ after)).
  { rewrite !survivors_app. f_equal. unfold survivors at 1. cbn [flat_map].
    unfold survivor at 1. now rewrite P, O. }
  assert (A : forallb (accepted URL_parse) (before ++ row :: after)
              = forallb (accepted URL_parse) (before ++ after)).
  { rewrite !forallb_app. cbn [forallb]. unfold accepted at 2. now rewrite P, O. }
  rewrite !transformSparqlResponse_entityMap, S, A. split; [reflexivity|].
  intros entities. destruct (forallb (accepted URL_parse) (before ++ after)); [|discriminate].
  intros [= <-]. split.
  - eapply Forall_impl; [|apply entityMap_survivors_websites]. intros entry [_ H]. exact H.
  - intros H. rewrite has_entityMap.
    destruct (existsb (sameEntity (item_value row)) (survivors URL_parse (before ++ after)))
      eqn:E; [|reflexivity].
    apply existsb_exists in E. destruct E as ([b u] & I & E).
    apply in_survivors in I. destruct I as [I J].
    apply String.eqb_eq in E. rewrite (H b I E) in J. discriminate.
Qed.

Lemma onion_row_is_skipped_witness :
  let shown := mkBinding "E1" "one" "first" "http://a.example/" "" in
  let hidden := mkBinding "E2" "two" "second" "http://x.onion/" "" in
  transformSparqlResponse basicURL [shown; hidden] = transformSparqlResponse basicURL [shown] /\
  Obj.has "E2" [("E1", mkEntity "one" "first"
                         [mkWebsite (mkURL "http://a.example/" "a.example") None])] = false.
Proof.
  intros shown hidden.
  destruct (onion_row_is_skipped basicURL [shown] hidden []
              (websiteUrl := mkURL "http://x.onion/" "x.onion")
              eq_refl (ex_intro _ "x" eq_refl)) as [Same Absent].
  split; [exact Same|].
  apply (Absent _ eq_refl).
  intros other [<-|[]] E. discriminate E.
Defined.




(** The claim C7 as it stands fails on the code.  ["constructor"] is not
    one of the three known codes, yet the table of rank codes inherits a
    member of that name from [Object.prototype]: the rank of the
    destination is that member, not [undefined].  And a row whose entity
    URI is such a name is not appended to anything: the normalizer
    throws. *)
Lemma inherited_rank_code_is_not_undefined :
  let a := mkURL "http://a.example/" "a.example" in
  ~ In "constructor" (Obj.names RANK_MAP) /\
  parseRank "constructor" = Some (Member "constructor") /\
  transformBinding basicURL []
    (mkBinding "E1" "one" "first" "http://a.example/" "constructor")
  = Some [("E1", mkEntity "one" "first" [mkWebsite a (Some (Member "constructor"))])] /\
  ~ In "no such rank" (Obj.names RANK_MAP) /\
  transformBinding basicURL []
    (mkBinding "toString" "one" "first" "http://a.example/" "no such rank")
  = None.
Proof.
  repeat split; simpl; intros [H|[H|[H|[]]]]; discriminate H.
Qed.

(** C7, amended: for a rank code and an entity URI that are not names of
    members of [Object.prototype].  A rank code that is not one of the
    three known codes maps to [undefined], nothing is thrown, and the
    row's destination is still appended to the destinations of its
    entity. *)
Theorem unknown_rank_is_undefined_and_appended
  (URL_parse : string -> option URL)
  (entities : Entities) (binding : Binding) (websiteUrl : URL) :
  ~ In (rank_value binding) (Obj.names RANK_MAP) ->
  Obj.inherited (rank_value binding) = false ->
  Obj.inherited (item_value binding) = false ->
  URL_parse (website_value binding) = Some websiteUrl ->
  isOnion websiteUrl = false ->
  parseRank (rank_value binding) = None /\
  exists entities' e',
    transformBinding URL_parse entities binding = Some entities' /\
    Obj.read (item_value binding) entities' = Obj.Own e' /\
    websites e'
    = (match Obj.read (item_value binding) entities with
       | Obj.Own e => websites e
       | _ => []
       end ++ [mkWebsite websiteUrl None])%list.
Proof.
  intros U IR II P O.
  assert (R : parseRank (rank_value binding) = None).
  { unfold parseRank, Obj.read.
    replace (Obj.get (rank_value binding) RANK_MAP) with (@None Rank)
      by (symmetry; apply ObjFacts.get_None; now apply ObjFacts.has_false_names).
    now rewrite IR. }
  split; [exact R|].
  unfold transformBinding, pushWebsite. rewrite P, O, R, (@ObjFacts.isIn_has Entity _ _ II).
  unfold Obj.read.
  destruct (Obj.has (item_value binding) entities) eqn:H; cbn [negb].
  - destruct (Obj.get (item_value binding) entities) as [e|] eqn:G.
    + eexists _, _. split; [reflexivity|]. rewrite ObjFacts.get_set_same.
      split; reflexivity.
    + apply ObjFacts.get_None in G. congruence.
  - rewrite ObjFacts.get_set_same.
    eexists _, _. split; [reflexivity|]. rewrite ObjFacts.get_set_same.
    split; [reflexivity|].
    apply ObjFacts.get_None in H. rewrite H, II. reflexivity.
Qed.

Lemma unknown_rank_is_undefined_and_appended_witness :
  parseRank "http://wikiba.se/ontology#BestRank" = None /\
  transformBinding basicURL
    [("E1", mkEntity "one" "first"
              [mkWebsite (mkURL "http://a.example/" "a.example") (Some PREFERRED)])]
    (mkBinding "E1" "one" "first" "http://b.example/" "http://wikiba.se/ontology#BestRank")
  = Some [("E1", mkEntity "one" "first"
                   [mkWebsite (mkURL "http://a.example/" "a.example") (Some PREFERRED);
                    mkWebsite (mkURL "http://b.example/" "b.example") None])].
Proof.
  pose proof (unknown_rank_is_undefined_and_appended basicURL
                [("E1", mkEntity "one" "first"
                          [mkWebsite (mkURL "http://a.example/" "a.example") (Some PREFERRED)])]
                (mkBinding "E1" "one" "first" "http://b.example/"
                           "http://wikiba.se/ontology#BestRank")
                (websiteUrl := mkURL "http://b.example/" "b.example")) as H.
  destruct H as [R _];
    [|reflexivity|reflexivity|reflexivity|reflexivity|split; [exact R | reflexivity]].
  simpl. intros [H|[H|[H|[]]]]; discriminate H.
Defined.

(** C10. The normalizer returns a map only if every row's URL parses: a
    row whose URL does not parse makes the whole call throw, wherever the
    row is.  (It throws in one more case, and in no other: when a row that
    is not skipped has an entity URI that names a member of
    [Object.prototype].)  With the parser [basicURL], a row with the URL
    [not a url] after a good row makes the whole call throw, although the
    good row alone gives a map, and although a row with an unknown rank
    code in the same place is kept. *)
Theorem transformSparqlResponse_throws_on_unparsable_url
  (URL_parse : string -> option URL) (bindings : list Binding) :
  ((exists binding, In binding bindings /\ URL_parse (website_value binding) = None) ->
   transformSparqlResponse URL_parse bindings = None) /\
  (transformSparqlResponse URL_parse bindings = None <->
   exists binding,
     In binding bindings /\
     (URL_parse (website_value binding) = None \/
      exists websiteUrl,
        URL_parse (website_value binding) = Some websiteUrl /\
        isOnion websiteUrl = false /\
        Obj.inherited (item_value binding) = true)) /\
  let good := mkBinding "E1" "one" "first" "http://a.example/"
                        "http://wikiba.se/ontology#PreferredRank" in
  let malformed := mkBinding "E2" "two" "second" "not a url"
                             "http://wikiba.se/ontology#NormalRank" in
  let unranked := mkBinding "E2" "two" "second" "http://b.example/" "no such rank" in
  transformSparqlResponse basicURL [good; malformed] = None /\
  transformSparqlResponse basicURL [good]
  = Some [("E1", mkEntity "one" "first"
                   [mkWebsite (mkURL "http://a.example/" "a.example") (Some PREFERRED)])] /\
  transformSparqlResponse basicURL [good; unranked]
  = Some [("E1", mkEntity "one" "first"
                   [mkWebsite (mkURL "http://a.example/" "a.example") (Some PREFERRED)]);
          ("E2", mkEntity "two" "second"
                   [mkWebsite (mkURL "http://b.example/" "b.example") None])].
Proof.
  assert (X : transformSparqlResponse URL_parse bindings = None <->
              exists binding, In binding bindings /\ accepted URL_parse binding = false).
  { rewrite transformSparqlResponse_entityMap.
    destruct (forallb (accepted URL_parse) bindings) eqn:A.
    - split; [discriminate|]. intros (b & I & N).
      rewrite forallb_forall in A. rewrite (A b I) in N. discriminate.
    - split; [intros _|reflexivity].
      assert (E : existsb (fun b => negb (accepted URL_parse b)) bindings = true).
      { clear - A. induction bindings as [|b l IH]; simpl in *; [discriminate|].
        destruct (accepted URL_parse b); simpl in *; auto. }
      apply existsb_exists in E. destruct E as (b & I & N). exists b.
      split; [assumption | now apply negb_true_iff]. }
  split; [|split; [|repeat split]].
  - intros (b & I & P). apply X. exists b. split; [assumption|].
    unfold accepted. now rewrite P.
  - rewrite X. split; intros (b & I & N); exists b; (split; [assumption|]).
    + unfold accepted in N. destruct (URL_parse (website_value b)) as [u|]; [|now left].
      right. exists u. apply orb_false_iff in N. destruct N as [N1 N2].
      apply negb_false_iff in N2. now repeat split.
    + unfold accepted. destruct N as [->|(u & -> & -> & ->)]; reflexivity.
Qed.

(* ================================================================== *)
(** * The load handler *)

Section Handler.

Variable BASE_HOST : string.
Variable URL_parse : string -> option URL.

Lemma bind_ok {A B} (trace : list Event) (a : A) (k : A -> M B) :
  bind (trace, Some a) k = ((trace ++ fst (k a))%list, snd (k a)).
Proof. unfold bind. now destruct (k a). Qed.

Lemma scheduled_app (t1 t2 : list Event) :
  scheduled (t1 ++ t2) = (scheduled t1 ++ scheduled t2)%list.
Proof. apply flat_map_app. Qed.

Lemma scheduled_results (trace : list Event) :
  forallb isResultEvent trace = true -> scheduled trace = [].
Proof.
  induction trace as [|e trace IH]; simpl; [reflexivity|].
  rewrite andb_true_iff. intros [E H]. rewrite (IH H). now destruct e.
Qed.

Lemma finalStatus_results (trace tail : list Event) (shown : option string) :
  forallb isResultEvent trace = true ->
  fold_left (fun shown e => match e with
                            | StatusText status => Some status
                            | _ => shown
                            end) (trace ++ tail) shown
  = fold_left (fun shown e => match e with
                              | StatusText status => Some status
                              | _ => shown
                              end) tail shown.
Proof.
  induction trace as [|e trace IH]; simpl; [reflexivity|].
  rewrite andb_true_iff. intros [E H]. rewrite <- (IH H). now destruct e.
Qed.

(** The cards of the entities after the first are rendered when each has
    a permalink. *)
Lemma forEach_cards (others : list (string * Entity)) :
  Forall (fun entry => generatePermalink BASE_HOST (fst entry) <> None) others ->
  exists trace,
    forEach (fun entry : string * Entity =>
               let (uri, item) := entry in
               (card <- renderCard BASE_HOST uri item ;; emit (OtherResult card))%M)
            others
    = (trace, Some tt) /\
    forallb isResultEvent trace = true.
Proof.
  induction others as [|[uri item] others IH]; intros F.
  - exists []. now split.
  - inversion F as [|? ? P F']; subst. destruct (IH F') as (trace & E & R).
    cbn [fst] in P. cbn [forEach]. rewrite E. unfold renderCard, orThrow.
    destruct (generatePermalink BASE_HOST uri) as [permalink|]; [|now destruct P].
    eexists. split; [reflexivity|]. exact R.
Qed.

(** [displayResults] returns when every entity has a permalink, and it
    throws, before anything is shown, when the first one has none. *)
Lemma displayResults_ok (results : Entities) :
  results <> [] ->
  Forall (fun entry => generatePermalink BASE_HOST (fst entry) <> None) results ->
  exists trace,
    displayResults BASE_HOST results = (trace, Some tt) /\
    forallb isResultEvent trace = true /\
    In ResultsShown trace.
Proof.
  intros N F.
  assert (O : Obj.entries results = results).
  { apply ObjFacts.entries_named. eapply Forall_impl; [|exact F].
    intros entry P. exact (proj1 (@generatePermalink_ordinary BASE_HOST _ P)). }
  unfold displayResults. rewrite O. clear O.
  destruct results as [|[topURI topItem] others]; [now destruct N|].
  inversion F as [|? ? P F']; subst. cbn [fst] in P.
  destruct (forEach_cards F') as (trace & E & R).
  rewrite E. unfold renderCard, orThrow.
  destruct (generatePermalink BASE_HOST topURI) as [permalink|]; [|now destruct P].
  destruct (List.length others) as [|[|n]]; (eexists; split; [reflexivity|]); split.
  - cbn. rewrite forallb_app, R. reflexivity.
  - cbn. right. apply in_or_app. right. now left.
  - cbn. rewrite forallb_app, R. reflexivity.
  - cbn. right. apply in_or_app. right. right. now left.
  - cbn. rewrite forallb_app, R. reflexivity.
  - cbn. right. apply in_or_app. right. right. now left.
Qed.

Lemma forEach_cards_throws (others : list (string * Entity)) :
  Exists (fun entry => generatePermalink BASE_HOST (fst entry) = None) others ->
  exists trace,
    forEach (fun entry : string * Entity =>
               let (uri, item) := entry in
               (card <- renderCard BASE_HOST uri item ;; emit (OtherResult card))%M)
            others
    = (trace, None) /\
    forallb isResultEvent trace = true.
Proof.
  induction others as [|[uri item] others IH]; intros X; [inversion X|].
  cbn [forEach]. unfold renderCard at 1, orThrow.
  destruct (generatePermalink BASE_HOST uri) as [permalink|] eqn:P.
  - inversion X as [? ? P'|? ? X']; subst; [cbn [fst] in P'; congruence|].
    destruct (IH X') as (trace & E & R). rewrite E.
    eexists. split; [reflexivity|]. exact R.
  - exists []. now split.
Qed.

(** [displayResults] throws when some entity has no permalink; what it has
    shown by then are cards only. *)
Lemma displayResults_throws (results : Entities) :
  Exists (fun entry => generatePermalink BASE_HOST (fst entry) = None) results ->
  exists trace,
    displayResults BASE_HOST results = (trace, None) /\
    forallb isResultEvent trace = true.
Proof.
  intros X.
  assert (X' : Exists (fun entry => generatePermalink BASE_HOST (fst entry) = None)
                      (Obj.entries results)).
  { apply Exists_exists in X. destruct X as (entry & I & P). apply Exists_exists.
    exists entry. split; [|exact P].
    eapply Permutation_in; [symmetry; apply ObjFacts.Permutation_entries | exact I]. }
  clear X. rename X' into X. unfold displayResults.
  destruct (Obj.entries results) as [|[topURI topItem] others]; [inversion X|].
  unfold renderCard at 1, orThrow.
  destruct (generatePermalink BASE_HOST topURI) as [permalink|] eqn:P.
  - inversion X as [? ? P'|? ? X']; subst; [cbn [fst] in P'; congruence|].
    destruct (forEach_cards_throws X') as (trace & E & R). rewrite E.
    eexists. split; [reflexivity|]. exact R.
  - exists []. now split.
Qed.

(** The handler stops in [displayResults], with no redirect scheduled,
    when some entity of the map has no permalink. *)
Lemma onLoad_display_throws (host : string) (bindings : list Binding) (results : Entities)
  (navigatedBack : bool) :
  transformSparqlResponse URL_parse bindings = Some results ->
  Exists (fun entry => generatePermalink BASE_HOST (fst entry) = None) results ->
  let outcome := onLoad BASE_HOST URL_parse host (Response true bindings) navigatedBack in
  snd outcome = None /\ scheduled (fst outcome) = [].
Proof.
  intros T X outcome. subst outcome.
  destruct (displayResults_throws X) as (shown & D & R).
  unfold onLoad. destruct (prepareRequest _) as [sparql delay]. cbn [negb].
  unfold orThrow, updateStatus, updateProgress, emit. rewrite T.
  destruct results as [|entry results]; [inversion X|]. unfold isEmpty.
  cbn [bind app]. rewrite D. cbn [bind app fst snd]. split; [reflexivity|].
  exact (scheduled_results _ R).
Qed.

(** The handler after a successful fetch that gives a non-empty map whose
    cards can be rendered. *)
Lemma onLoad_found (host : string) (bindings : list Binding) (results : Entities)
  (navigatedBack : bool) :
  transformSparqlResponse URL_parse bindings = Some results ->
  results <> [] ->
  Forall (fun entry => generatePermalink BASE_HOST (fst entry) <> None) results ->
  exists shown,
    forallb isResultEvent shown = true /\
    In ResultsShown shown /\
    onLoad BASE_HOST URL_parse host (Response true bindings) navigatedBack
    = (([ StatusText "Searching...";
          Request (fst (prepareRequest (removeSuffix host ("." ++ BASE_HOST))));
          ProgressValue 100;
          StatusText "Found." ]
        ++ shown
        ++ if navigatedBack then []
           else [ StatusText "Redirecting...";
                  Timeout (redirectTarget results)
                          (snd (prepareRequest (removeSuffix host ("." ++ BASE_HOST)))) ])%list,
       Some tt).
Proof.
  intros T N F. destruct (displayResults_ok N F) as (shown & D & R & S).
  exists shown. split; [exact R|]. split; [exact S|].
  unfold onLoad. destruct (prepareRequest _) as [sparql delay]. cbn [fst snd negb].
  unfold orThrow, updateStatus, updateProgress, emit. rewrite T.
  destruct results as [|entry results]; [now destruct N|]. cbn [isEmpty].
  cbn [bind app]. rewrite D.
  destruct navigatedBack; cbn; rewrite ?app_nil_r; reflexivity.
Qed.

End Handler.

(** C3, as stated, fails: with a non-empty map and no back navigation the
    handler can stop in [displayResults], before any redirect is
    scheduled.  Here the only entity has the URI [E1], for which
    [generatePermalink] throws. *)
Lemma redirect_not_scheduled_when_card_fails :
  let bindings := [ mkBinding "E1" "one" "first" "http://a.example/"
                              "http://wikiba.se/ontology#PreferredRank" ] in
  let results := [ ("E1", mkEntity "one" "first"
                            [mkWebsite (mkURL "http://a.example/" "a.example")
                                       (Some PREFERRED)]) ] in
  let outcome :=
    onLoad "wikimark.net" basicURL "q1.wikimark.net" (Response true bindings) false in
  transformSparqlResponse basicURL bindings = Some results /\
  results <> [] /\
  scheduled (fst outcome) = [] /\
  snd outcome = None.
Proof. repeat split. discriminate. Qed.

(** C3, amended.  For a non-empty map in which every entity URI has the
    shape [.../entity/Q<digits>], the handler shows the results and
    returns; after a back navigation it schedules no redirect and the
    status stays at the results; otherwise it schedules one redirect, to
    the first destination of the first entity, with delay 0 when the token
    is a direct lookup and 1000 when it is a search. *)
Theorem onLoad_redirect_decision
  (BASE_HOST : string) (URL_parse : string -> option URL)
  (host : string) (bindings : list Binding) (results : Entities) (navigatedBack : bool) :
  transformSparqlResponse URL_parse bindings = Some results ->
  results <> [] ->
  Forall (fun entry => exists qid, isEntityUri (fst entry) qid) results ->
  let query := removeSuffix host ("." ++ BASE_HOST) in
  let outcome := onLoad BASE_HOST URL_parse host (Response true bindings) navigatedBack in
  snd outcome = Some tt /\
  In ResultsShown (fst outcome) /\
  (navigatedBack = true ->
   scheduled (fst outcome) = [] /\ finalStatus (fst outcome) = Some "Found.") /\
  (navigatedBack = false ->
   exists uri item w ws others delay,
     Obj.entries results = (uri, item) :: others /\
     websites item = w :: ws /\
     scheduled (fst outcome) = [(Some (url w), delay)] /\
     ((containsQid query /\ delay = 0) \/ (~ containsQid query /\ delay = 1000))).
Proof.
  intros T N U query outcome.
  assert (F : Forall (fun entry => generatePermalink BASE_HOST (fst entry) <> None) results).
  { eapply Forall_impl; [|exact U]. intros entry H. now apply generatePermalink_defined. }
  destruct (@onLoad_found BASE_HOST URL_parse host bindings results navigatedBack T N F)
    as (shown & R & S & E).
  fold query in E. subst outcome. rewrite E. cbn [fst snd].
  split; [reflexivity|]. split; [|split].
  - apply in_or_app. right. apply in_or_app. left. exact S.
  - intros ->. rewrite app_nil_r. split.
    + rewrite scheduled_app. now rewrite (scheduled_results _ R).
    + unfold finalStatus. cbn [fold_left app].
      rewrite <- (app_nil_r shown). now rewrite finalStatus_results.
  - intros ->.
    assert (I : Forall (fun entry : string * Entity => Obj.isArrayIndex (fst entry) = false)
                       results).
    { eapply Forall_impl; [|exact U]. intros entry (qid & H).
      exact (proj1 (isEntityUri_ordinary H)). }
    rewrite transformSparqlResponse_entityMap in T.
    destruct (forallb (accepted URL_parse) bindings); [|discriminate].
    destruct (survivors URL_parse bindings) as [|first rows]; injection T as <-;
      [now destruct N|].
    destruct (entityMap_first_entry I) as (item & ds & others & O & W & G).
    exists (entityOf first), item, (destination first), ds, others,
           (snd (prepareRequest query)).
    split; [exact O|]. split; [exact W|]. split.
    + rewrite !scheduled_app, (scheduled_results _ R), G. reflexivity.
    + unfold prepareRequest. destruct (isLookup query) eqn:L; [left|right].
      * split; [now apply isLookup_iff | reflexivity].
      * split; [|reflexivity]. intros C. apply isLookup_iff in C. congruence.
Qed.

Lemma onLoad_redirect_decision_witness :
  let bindings := [ mkBinding "http://www.wikidata.org/entity/Q42" "Douglas Adams" "writer"
                              "http://a.example/"
                              "http://wikiba.se/ontology#PreferredRank" ] in
  let outcome :=
    onLoad "wikimark.net" basicURL "q42.wikimark.net" (Response true bindings) false in
  snd outcome = Some tt /\
  In ResultsShown (fst outcome) /\
  scheduled (fst outcome) = [(Some (mkURL "http://a.example/" "a.example"), 0)].
Proof.
  intros bindings outcome.
  assert (U : Forall (fun entry : string * Entity => exists qid, isEntityUri (fst entry) qid)
                [ ("http://www.wikidata.org/entity/Q42",
                   mkEntity "Douglas Adams" "writer"
                     [mkWebsite (mkURL "http://a.example/" "a.example") (Some PREFERRED)]) ]).
  { constructor; [|constructor]. exists "Q42", "http://www.wikidata.org", "42".
    repeat split. discriminate. }
  destruct (onLoad_redirect_decision "wikimark.net" basicURL "q42.wikimark.net"
              bindings false eq_refl ltac:(discriminate) U) as (Done & Shown & _ & _).
  split; [exact Done|]. split; [exact Shown | reflexivity].
Defined.

(** C8. When the response is not a success, the handler ends with the
    status [Search failed!]: the bindings are not looked at, nothing is
    displayed and no redirect is scheduled.  When the normalizer returns
    the empty map, the handler ends with the status [Not found.], and no
    redirect is scheduled either. *)
Theorem onLoad_search_failed_and_not_found
  (BASE_HOST : string) (URL_parse : string -> option URL)
  (host : string) (bindings : list Binding) (navigatedBack : bool) :
  let sparql := fst (prepareRequest (removeSuffix host ("." ++ BASE_HOST))) in
  let failed := onLoad BASE_HOST URL_parse host (Response false bindings) navigatedBack in
  let found := onLoad BASE_HOST URL_parse host (Response true bindings) navigatedBack in
  (failed = ([ StatusText "Searching..."; Request sparql;
               StatusText "Search failed!"; ConsoleError ], Some tt) /\
   finalStatus (fst failed) = Some "Search failed!" /\
   scheduled (fst failed) = []) /\
  (transformSparqlResponse URL_parse bindings = Some [] ->
   found = ([ StatusText "Searching..."; Request sparql;
              ProgressValue 100; StatusText "Not found." ], Some tt) /\
   finalStatus (fst found) = Some "Not found." /\
   scheduled (fst found) = []).
Proof.
  intros sparql failed found. subst sparql failed found. unfold onLoad.
  destruct (prepareRequest _) as [sparql delay]. cbn [fst snd negb]. split.
  - repeat split.
  - intros T. unfold orThrow. rewrite T. repeat split.
Qed.

Lemma onLoad_search_failed_and_not_found_witness :
  let hidden := mkBinding "E1" "one" "first" "http://x.onion/" "" in
  onLoad "wikimark.net" basicURL "tor.wikimark.net" (Response true [hidden]) false
  = ([ StatusText "Searching..."; Request (prepareSparqlSearchQuery "tor");
       ProgressValue 100; StatusText "Not found." ], Some tt).
Proof.
  intros hidden.
  exact (proj1 (proj2 (onLoad_search_failed_and_not_found
                         "wikimark.net" basicURL "tor.wikimark.net" [hidden] false)
                      eq_refl)).
Defined.


(* ================================================================== *)
(** * Host names and tokens: [removeSuffix] *)

Unset Implicit Arguments.

Module RemoveSuffix.

Import StrFacts.

Lemma prefix_iff (t s : string) : prefix t s = true <-> exists b, s = t ++ b.
Proof.
  revert s. induction t as [|c t IH]; intros [|d s]; simpl.
  - split; [now exists "" | reflexivity].
  - split; [now eexists | reflexivity].
  - split; [discriminate | intros (b & H); discriminate H].
  - destruct (ascii_dec c d) as [E|N].
    + subst d. split.
      * intros P. apply IH in P. destruct P as (b & ->). now exists b.
      * intros (b & H). injection H as H. apply IH. now exists b.
    + split; [discriminate | intros (b & H); injection H as H _; congruence].
Qed.

(** [lastIndexOf] finds an occurrence, *)
Lemma lastIndexOf_sound (s t : string) (k : nat) :
  Str.lastIndexOf s t = Some k ->
  exists a b, s = a ++ t ++ b /\ String.length a = k.
Proof.
  revert k. induction s as [|c s IH]; intros k; cbn [Str.lastIndexOf].
  - destruct (String.eqb_spec t ""); [|discriminate].
    intros [= <-]. subst t. now exists "", "".
  - destruct (Str.lastIndexOf s t) as [k'|].
    + intros [= <-]. destruct (IH k' eq_refl) as (a & b & -> & L).
      exists (String c a), b. simpl. now rewrite L.
    + destruct (prefix t (String c s)) eqn:P; [|discriminate].
      intros [= <-]. apply prefix_iff in P. destruct P as (b & P).
      now exists "", b.
Qed.

(** and no occurrence starts after it. *)
Lemma lastIndexOf_last (s t a b : string) :
  s = a ++ t ++ b ->
  exists k, Str.lastIndexOf s t = Some k /\ String.length a <= k.
Proof.
  revert a. induction s as [|c s IH]; intros a E; cbn [Str.lastIndexOf].
  - destruct a; [|discriminate]. destruct t; [|discriminate].
    exists 0. now split.
  - destruct a as [|d a].
    + destruct (Str.lastIndexOf s t) as [k'|]; [exists (S k'); split; [reflexivity | simpl; lia]|].
      assert (P : prefix t (String c s) = true) by (apply prefix_iff; now exists b).
      rewrite P. exists 0. now split.
    + injection E as _ E. destruct (IH a E) as (k' & -> & L).
      exists (S k'). split; [reflexivity | simpl; lia].
Qed.

Lemma substring_0_prefix (k : nat) (s : string) : exists rest, s = substring 0 k s ++ rest.
Proof.
  revert s. induction k as [|k IH]; intros [|c s]; simpl;
    try (now exists ""); try (now eexists).
  destruct (IH s) as (rest & H). exists rest. now rewrite <- H.
Qed.

Lemma removeSuffix_cases (str suffix : string) :
  removeSuffix str suffix = str \/
  exists k, Str.lastIndexOf str suffix = Some k /\
            removeSuffix str suffix = substring 0 k str /\
            substring 0 k str <> "".
Proof.
  unfold removeSuffix. destruct (Str.lastIndexOf str suffix) as [k|]; [|now left].
  destruct (String.eqb_spec (substring 0 k str) ""); [now left|].
  right. now exists k.
Qed.

(** In a string that ends with [t], the last occurrence of [t] is the one
    at the end. *)
Lemma lastIndexOf_append (sub t : string) :
  Str.lastIndexOf (sub ++ t) t = Some (String.length sub).
Proof.
  destruct (@lastIndexOf_last (sub ++ t) t sub "") as (k & K & L);
    [now rewrite append_nil_r|].
  destruct (@lastIndexOf_sound _ _ _ K) as (a & b & E & La).
  apply (f_equal String.length) in E. rewrite !length_append in E.
  rewrite K. f_equal. lia.
Qed.

Lemma removeSuffix_append (sub suffix : string) :
  sub <> "" -> removeSuffix (sub ++ suffix) suffix = sub.
Proof.
  intros N. unfold removeSuffix. rewrite lastIndexOf_append, substring_0_append.
  destruct (String.eqb_spec sub ""); [contradiction | reflexivity].
Qed.

Lemma append_prefix_longer (a x sub y : string) :
  a ++ x = sub ++ y -> String.length sub <= String.length a ->
  exists more, a = sub ++ more.
Proof.
  revert sub. induction a as [|c a IH]; intros [|d sub]; simpl; intros E L.
  - now exists "".
  - lia.
  - now eexists.
  - injection E as -> E. destruct (IH sub E ltac:(lia)) as (more & ->). now exists more.
Qed.

End RemoveSuffix.

(** X1. A host made of a non-empty subdomain followed by the suffix is cut
    back to the subdomain, whatever the subdomain contains (also earlier
    occurrences of the suffix). *)
Theorem removeSuffix_strips (sub suffix : string) :
  sub <> "" -> removeSuffix (sub ++ suffix) suffix = sub.
Proof.
  intros N. unfold removeSuffix.
  rewrite RemoveSuffix.lastIndexOf_append, StrFacts.substring_0_append.
  destruct (String.eqb_spec sub ""); [contradiction | reflexivity].
Qed.

Lemma removeSuffix_strips_witness :
  removeSuffix ("q42" ++ ".wikimark.net") ".wikimark.net" = "q42".
Proof. apply removeSuffix_strips. discriminate. Defined.

(** X2. What [removeSuffix] returns is always the beginning of its input; it
    is empty only for the empty input; and it is the input itself when the
    suffix occurs nowhere in it, or only at its very start (a host that is
    the bare suffix is not cut). *)
Theorem removeSuffix_is_nonempty_prefix (str suffix : string) :
  (exists rest, str = removeSuffix str suffix ++ rest) /\
  (removeSuffix str suffix = "" <-> str = "") /\
  ((forall a b, str = a ++ suffix ++ b -> a = "") -> removeSuffix str suffix = str).
Proof.
  split; [|split].
  - destruct (RemoveSuffix.removeSuffix_cases str suffix) as [->|(k & _ & -> & _)].
    + exists "". now rewrite StrFacts.append_nil_r.
    + apply RemoveSuffix.substring_0_prefix.
  - split.
    + destruct (RemoveSuffix.removeSuffix_cases str suffix) as [->|(k & _ & -> & N)];
        [auto | contradiction].
    + intros ->. unfold removeSuffix. simpl. now destruct (suffix =? "").
  - intros A. destruct (RemoveSuffix.removeSuffix_cases str suffix)
      as [H|(k & K & _ & N)]; [exact H|].
    destruct (@RemoveSuffix.lastIndexOf_sound _ _ _ K) as (a & b & E & La).
    rewrite (A a b E) in La. simpl in La. subst k.
    exfalso. apply N. now destruct str.
Qed.

(** X3. [removeSuffix] does not look whether the suffix is at the end: when
    the suffix occurs anywhere after a non-empty beginning, the result is
    the part of the input before the last occurrence of the suffix: the
    suffix follows what is kept, and it occurs nowhere later in the input.
    So at least the beginning is kept, and for a non-empty suffix
    something is removed. *)
Theorem removeSuffix_cuts_at_last_occurrence (sub suffix tail : string) :
  sub <> "" ->
  exists kept removed,
    removeSuffix (sub ++ suffix ++ tail) suffix = kept /\
    sub ++ suffix ++ tail = kept ++ suffix ++ removed /\
    (forall a b,
       sub ++ suffix ++ tail = a ++ suffix ++ b -> String.length a <= String.length kept) /\
    (exists more, kept = sub ++ more) /\
    (suffix <> "" -> kept <> sub ++ suffix ++ tail).
Proof.
  intros N1.
  destruct (@RemoveSuffix.lastIndexOf_last (sub ++ suffix ++ tail) suffix sub tail eq_refl)
    as (k & K & L).
  destruct (@RemoveSuffix.lastIndexOf_sound _ _ _ K) as (a & b & E & La).
  assert (R : removeSuffix (sub ++ suffix ++ tail) suffix = a).
  { unfold removeSuffix. rewrite K, <- La, E, StrFacts.substring_0_append.
    destruct (String.eqb_spec a "") as [->|]; [|reflexivity].
    destruct sub; [contradiction | simpl in *; lia]. }
  exists a, b. split; [exact R|]. split; [exact E|]. split; [|split].
  - intros a' b' E'.
    destruct (@RemoveSuffix.lastIndexOf_last _ suffix a' b' E') as (k' & K' & L').
    rewrite K in K'. injection K' as <-. lia.
  - apply (@RemoveSuffix.append_prefix_longer a (suffix ++ b) sub (suffix ++ tail));
      [now symmetry | lia].
  - intros N2 ->. apply (f_equal String.length) in E.
    rewrite !StrFacts.length_append in E. destruct suffix; [contradiction | simpl in E; lia].
Qed.

Lemma removeSuffix_cuts_at_last_occurrence_witness :
  removeSuffix "q1.wikimark.net.example.wikimark.net.test" ".wikimark.net"
  = "q1.wikimark.net.example".
Proof.
  destruct (removeSuffix_cuts_at_last_occurrence
              "q1" ".wikimark.net" ".example.wikimark.net.test")
    as (kept & removed & <- & _); [discriminate | reflexivity].
Defined.

(* ================================================================== *)
(** * From a permalink back to the entity *)

Lemma toUpperCase_digits (s : string) :
  Str.forallb Str.isDigit s = true -> Str.toUpperCase s = s.
Proof.
  unfold Str.toUpperCase. induction s as [|c s IH]; simpl; [reflexivity|].
  rewrite andb_true_iff. intros [D H]. rewrite (IH H). f_equal.
  revert D. destruct c as [[] [] [] [] [] [] [] []]; vm_compute; congruence.
Qed.

(** X4. The permalink of an entity leads back to that entity: the page
    opened at the permalink's host takes the lower-cased identifier as its
    token, classifies it as a direct lookup (delay 0) and sends the lookup
    query that binds exactly the entity's identifier. *)
Theorem permalink_leads_to_lookup (BASE_HOST uri qid : string) :
  isEntityUri uri qid ->
  exists host,
    generatePermalink BASE_HOST uri = Some ("//" ++ host) /\
    removeSuffix host ("." ++ BASE_HOST) = Str.toLowerCase qid /\
    prepareRequest (removeSuffix host ("." ++ BASE_HOST))
    = (Template.textBefore lookupTemplate ++ qid ++ Template.textAfter lookupTemplate, 0).
Proof.
  intros U. exists (Str.toLowerCase qid ++ "." ++ BASE_HOST).
  split; [exact (@generatePermalink_Some BASE_HOST uri qid U)|].
  destruct U as (before & digits & _ & -> & N & F & _).
  assert (L : Str.toLowerCase (String "Q" digits) = String "q" digits).
  { unfold Str.toLowerCase. cbn [Str.map]. fold (Str.toLowerCase digits).
    now rewrite (StrFacts.toLowerCase_digits _ F). }
  rewrite L, RemoveSuffix.removeSuffix_append by discriminate.
  split; [reflexivity|].
  unfold prepareRequest.
  assert (I : isLookup (String "q" digits) = true).
  { apply isLookup_iff. exists "", "q"%char, digits, "".
    rewrite StrFacts.append_nil_r. auto. }
  rewrite I, prepareSparqlLookupQuery_skeleton. do 3 f_equal.
  unfold Str.toUpperCase. cbn [Str.map]. fold (Str.toUpperCase digits).
  now rewrite (toUpperCase_digits _ F).
Qed.

Lemma permalink_leads_to_lookup_witness :
  exists host,
    generatePermalink "wikimark.net" "http://www.wikidata.org/entity/Q42" = Some ("//" ++ host) /\
    removeSuffix host ".wikimark.net" = "q42".
Proof.
  destruct (permalink_leads_to_lookup "wikimark.net" "http://www.wikidata.org/entity/Q42" "Q42")
    as (host & P & R & _).
  - exists "http://www.wikidata.org", "42". repeat split. discriminate.
  - exists host. split; [exact P | exact R].
Defined.

(* ================================================================== *)
(** * Displaying the results *)

Section Display.

Variable BASE_HOST : string.

Lemma permalink_Forall_or_Exists (results : Entities) :
  Forall (fun entry => generatePermalink BASE_HOST (fst entry) <> None) results \/
  Exists (fun entry => generatePermalink BASE_HOST (fst entry) = None) results.
Proof.
  induction results as [|entry results [IH|IH]].
  - left. constructor.
  - destruct (generatePermalink BASE_HOST (fst entry)) eqn:P.
    + left. constructor; [congruence | exact IH].
    + right. now left.
  - right. now right.
Qed.

Lemma renderCard_returns (uri : string) (item : Entity) (trace : list Event) (card : Card) :
  renderCard BASE_HOST uri item = (trace, Some card) ->
  trace = [] /\ isCardOf BASE_HOST card (uri, item).
Proof.
  unfold renderCard, orThrow.
  destruct (generatePermalink BASE_HOST uri) as [permalink|] eqn:P; [|discriminate].
  intros [= <- <-]. split; [reflexivity|]. unfold isCardOf. cbn. auto.
Qed.

Lemma forEach_cards_trace (others : list (string * Entity)) :
  forall trace,
    forEach (fun entry : string * Entity =>
               let (uri, item) := entry in
               (card <- renderCard BASE_HOST uri item ;; emit (OtherResult card))%M)
            others
    = (trace, Some tt) ->
    exists cards,
      trace = List.map OtherResult cards /\ Forall2 (isCardOf BASE_HOST) cards others.
Proof.
  induction others as [|[uri item] others IH]; intros trace.
  - intros [= <-]. exists []. split; [reflexivity | constructor].
  - cbn [forEach].
    destruct (renderCard BASE_HOST uri item) as [t [card|]] eqn:R; [|discriminate].
    destruct (renderCard_returns _ _ _ _ R) as [-> C].
    destruct (forEach _ others) as [t' [[]|]] eqn:E; [|discriminate].
    destruct (IH _ eq_refl) as (cards & -> & F).
    intros [= <-]. exists (card :: cards). split; [reflexivity | now constructor].
Qed.

Lemma displayResults_trace (results : Entities) (trace : list Event) :
  displayResults BASE_HOST results = (trace, Some tt) ->
  exists top cards,
    trace = (TopResult top :: List.map OtherResult cards
             ++ detailsSummary (List.length cards) ++ [ResultsShown])%list /\
    Forall2 (isCardOf BASE_HOST) (top :: cards) results.
Proof.
  intros D.
  assert (O : Obj.entries results = results).
  { apply ObjFacts.entries_named.
    destruct (permalink_Forall_or_Exists results) as [F|X].
    - eapply Forall_impl; [|exact F].
      intros entry P. exact (proj1 (@generatePermalink_ordinary BASE_HOST _ P)).
    - destruct (@displayResults_throws BASE_HOST results X) as (t & E & _). congruence. }
  revert D. unfold displayResults. rewrite O. clear O.
  destruct results as [|[topURI topItem] others]; [discriminate|].
  destruct (renderCard BASE_HOST topURI topItem) as [t [top|]] eqn:R; [|discriminate].
  destruct (renderCard_returns _ _ _ _ R) as [-> C].
  destruct (forEach _ others) as [t' [[]|]] eqn:E; [|discriminate].
  destruct (forEach_cards_trace _ _ E) as (cards & -> & F).
  assert (L : List.length others = List.length cards).
  { clear - F. induction F; simpl; congruence. }
  rewrite L. intros H. exists top, cards. split; [|now constructor].
  destruct (List.length cards) as [|[|n]]; cbn in H; injection H as <-;
    cbn; now rewrite ?app_nil_r.
Qed.

End Display.

(** X5. [displayResults] returns exactly when the map is not empty and
    every entity URI in it has the shape [.../entity/Q<digits>]; otherwise it
    throws. *)
Theorem displayResults_returns_iff (BASE_HOST : string) (results : Entities) :
  snd (displayResults BASE_HOST results) = Some tt <->
  results <> [] /\ Forall (fun entry => exists qid, isEntityUri (fst entry) qid) results.
Proof.
  split.
  - intros R. split; [intros ->; discriminate R|].
    destruct (permalink_Forall_or_Exists BASE_HOST results) as [F|X].
    + eapply Forall_impl; [|exact F]. intros entry H.
      now apply (generatePermalink_defined BASE_HOST).
    + destruct (@displayResults_throws BASE_HOST results X) as (trace & E & _).
      rewrite E in R. discriminate R.
  - intros [N U].
    assert (F : Forall (fun entry => generatePermalink BASE_HOST (fst entry) <> None) results).
    { eapply Forall_impl; [|exact U]. intros entry H.
      now apply generatePermalink_defined. }
    destruct (@displayResults_ok BASE_HOST results N F) as (trace & E & _).
    now rewrite E.
Qed.

(** X6. When [displayResults] returns it has rendered one card per entity,
    in the order of the map and the first one as the top result, each with
    the entity's URI, label, description, permalink and all its URLs in
    order; then the summary of how many entities follow the first (none
    for a single entity); and last it has made the results visible. *)
Theorem displayResults_shows_every_entity
  (BASE_HOST : string) (results : Entities) (trace : list Event) :
  displayResults BASE_HOST results = (trace, Some tt) ->
  exists top cards,
    trace = ([TopResult top] ++ List.map OtherResult cards
             ++ detailsSummary (List.length cards) ++ [ResultsShown])%list /\
    cardsShown trace = top :: cards /\
    Forall2 (isCardOf BASE_HOST) (top :: cards) results.
Proof.
  intros D. destruct (displayResults_trace BASE_HOST results trace D) as (top & cards & -> & F).
  exists top, cards. split; [reflexivity|]. split; [|exact F].
  unfold cardsShown. cbn [flat_map app]. f_equal.
  rewrite flat_map_app.
  assert (A : forall l, flat_map (fun e => match e with
                                           | TopResult card | OtherResult card => [card]
                                           | _ => []
                                           end) (List.map OtherResult l) = l).
  { induction l as [|c l IH]; simpl; [reflexivity | now rewrite IH]. }
  rewrite A. destruct (List.length cards) as [|[|n]]; cbn; now rewrite app_nil_r.
Qed.

Lemma displayResults_shows_every_entity_witness :
  let a := mkURL "http://a.example/" "a.example" in
  let results :=
    [ ("http://www.wikidata.org/entity/Q1", mkEntity "one" "first" [mkWebsite a None]);
      ("http://www.wikidata.org/entity/Q2", mkEntity "two" "second" [mkWebsite a None]) ] in
  exists top cards,
    cardsShown (fst (displayResults "wikimark.net" results)) = top :: cards /\
    Forall2 (isCardOf "wikimark.net") (top :: cards) results.
Proof.
  intros a results.
  assert (D : displayResults "wikimark.net" results
              = (fst (displayResults "wikimark.net" results), Some tt))
    by (vm_compute; reflexivity).
  destruct (displayResults_shows_every_entity "wikimark.net" results _ D)
    as (top & cards & _ & C & F).
  exists top, cards. split; [exact C | exact F].
Defined.

(* ================================================================== *)
(** * Every run of the load handler *)

Section Runs.

Variable BASE_HOST : string.
Variable URL_parse : string -> option URL.

Lemma transformSparqlResponse_None (bindings : list Binding) :
  transformSparqlResponse URL_parse bindings = None <->
  exists binding, In binding bindings /\ accepted URL_parse binding = false.
Proof.
  rewrite transformSparqlResponse_entityMap.
  destruct (forallb (accepted URL_parse) bindings) eqn:A.
  - split; [discriminate|]. intros (b & I & P).
    rewrite forallb_forall in A. rewrite (A b I) in P. discriminate.
  - split; [intros _|reflexivity].
    induction bindings as [|b l IH]; simpl in A; [discriminate|].
    destruct (accepted URL_parse b) eqn:P.
    + destruct (IH A) as (b' & I & P'). exists b'. split; [now right | exact P'].
    + exists b. split; [now left | exact P].
Qed.

(** The first surviving row comes after rows that are all skipped. *)
Lemma survivors_first (bindings : list Binding) (first : Binding * URL)
  (rows : list (Binding * URL)) :
  survivors URL_parse bindings = first :: rows ->
  exists skipped later,
    bindings = (skipped ++ fst first :: later)%list /\
    Forall (fun binding => survivor URL_parse binding = None) skipped /\
    URL_parse (website_value (fst first)) = Some (snd first) /\
    isOnion (snd first) = false.
Proof.
  induction bindings as [|b l IH]; [discriminate|].
  unfold survivors. cbn [flat_map]. fold (survivors URL_parse l).
  destruct (survivor URL_parse b) as [r|] eqn:S.
  - intros [= -> _]. exists [], l. unfold survivor in S.
    destruct (URL_parse (website_value b)) as [u|] eqn:P; [|discriminate].
    destruct (isOnion u) eqn:O; [discriminate|]. injection S as <-.
    cbn [fst snd]. repeat split; [constructor | exact P | exact O].
  - intros H. destruct (IH H) as (skipped & later & -> & F & P & O).
    exists (b :: skipped), later. repeat split; [now constructor | exact P | exact O].
Qed.

(** The ways in which the handler can run. *)
Lemma onLoad_paths (host : string) (fetched : Fetched) (navigatedBack : bool) :
  let query := removeSuffix host ("." ++ BASE_HOST) in
  let start := [StatusText "Searching..."; Request (fst (prepareRequest query))] in
  let found := (start ++ [ProgressValue 100; StatusText "Found."])%list in
  let outcome := onLoad BASE_HOST URL_parse host fetched navigatedBack in
  ((fetched = Rejected \/ fetched = Unreadable \/
    exists bindings, fetched = Response true bindings /\
                     transformSparqlResponse URL_parse bindings = None) /\
   outcome = (start, None)) \/
  ((exists bindings, fetched = Response false bindings) /\
   outcome = ((start ++ [StatusText "Search failed!"; ConsoleError])%list, Some tt)) \/
  ((exists bindings, fetched = Response true bindings /\
                     transformSparqlResponse URL_parse bindings = Some []) /\
   outcome = ((start ++ [ProgressValue 100; StatusText "Not found."])%list, Some tt)) \/
  (exists bindings results shown,
     fetched = Response true bindings /\
     transformSparqlResponse URL_parse bindings = Some results /\
     results <> [] /\
     forallb isResultEvent shown = true /\
     ((Exists (fun entry => generatePermalink BASE_HOST (fst entry) = None) results /\
       outcome = ((found ++ shown)%list, None)) \/
      (Forall (fun entry => generatePermalink BASE_HOST (fst entry) <> None) results /\
       outcome = ((found ++ shown
                   ++ if navigatedBack then []
                      else [ StatusText "Redirecting...";
                             Timeout (redirectTarget results) (snd (prepareRequest query)) ])%list,
                  Some tt)))).
Proof.
  intros query start found outcome.
  destruct fetched as [|[|] bindings|].
  - left. split; [now left|]. subst outcome start query. unfold onLoad.
    now destruct (prepareRequest _).
  - destruct (transformSparqlResponse URL_parse bindings) as [results|] eqn:T.
    + destruct results as [|entry results].
      * right. right. left. split; [now exists bindings|].
        subst outcome start query. unfold onLoad, orThrow.
        destruct (prepareRequest _). now rewrite T.
      * right. right. right.
        destruct (permalink_Forall_or_Exists BASE_HOST (entry :: results)) as [F|X].
        -- destruct (@onLoad_found BASE_HOST URL_parse host bindings (entry :: results)
                       navigatedBack T ltac:(discriminate) F) as (shown & R & _ & E).
           exists bindings, (entry :: results), shown.
           repeat (split; [reflexivity || assumption || discriminate|]).
           right. split; [exact F | exact E].
        -- destruct (@displayResults_throws BASE_HOST (entry :: results) X) as (shown & D & R).
           exists bindings, (entry :: results), shown.
           repeat (split; [reflexivity || assumption || discriminate|]).
           left. split; [exact X|].
           subst outcome found start query. unfold onLoad.
           destruct (prepareRequest _) as [sparql delay]. cbn [negb fst].
           unfold orThrow, updateStatus, updateProgress, emit. rewrite T.
           unfold isEmpty. cbn [bind app]. rewrite D. reflexivity.
    + left. split; [right; right; now exists bindings|].
      subst outcome start query. unfold onLoad, orThrow.
      destruct (prepareRequest _). now rewrite T.
  - right. left. split; [now exists bindings|].
    subst outcome start query. unfold onLoad. now destruct (prepareRequest _).
  - left. split; [right; now left|]. subst outcome start query. unfold onLoad.
    now destruct (prepareRequest _).
Qed.

End Runs.

Section RunProperties.

Variable BASE_HOST : string.
Variable URL_parse : string -> option URL.

Lemma finalStatus_found (start shown tail : list Event) :
  forallb isResultEvent shown = true ->
  finalStatus ((start ++ [ProgressValue 100; StatusText "Found."]) ++ shown ++ tail)
  = fold_left (fun status e => match e with
                               | StatusText s => Some s
                               | _ => status
                               end) tail (Some "Found.").
Proof.
  intros R. unfold finalStatus. rewrite !fold_left_app. cbn [fold_left].
  rewrite <- fold_left_app. now apply finalStatus_results.
Qed.

Lemma scheduled_found (query : string) (shown tail : list Event) :
  forallb isResultEvent shown = true ->
  scheduled (([StatusText "Searching..."; Request query]
              ++ [ProgressValue 100; StatusText "Found."]) ++ shown ++ tail)
  = scheduled tail.
Proof.
  intros R. rewrite !scheduled_app, (scheduled_results _ R). reflexivity.
Qed.

Lemma transformSparqlResponse_nil (bindings : list Binding) :
  transformSparqlResponse URL_parse bindings = Some [] <->
  Forall (fun binding => exists websiteUrl,
            URL_parse (website_value binding) = Some websiteUrl /\
            isOnion websiteUrl = true) bindings.
Proof.
  rewrite transformSparqlResponse_entityMap. split.
  - destruct (forallb (accepted URL_parse) bindings) eqn:A; [|discriminate].
    intros [= E]. rewrite forallb_forall in A. apply Forall_forall. intros b I.
    specialize (A b I). unfold accepted in A.
    destruct (URL_parse (website_value b)) as [u|] eqn:P; [|discriminate].
    exists u. split; [reflexivity|].
    destruct (isOnion u) eqn:O; [reflexivity|]. exfalso.
    assert (J : In (b, u) (survivors URL_parse bindings)).
    { apply in_survivors. split; [exact I|]. unfold survivor. now rewrite P, O. }
    destruct (survivors URL_parse bindings); [destruct J | discriminate E].
  - intros F.
    assert (A : forallb (accepted URL_parse) bindings = true).
    { apply forallb_forall. intros b I. rewrite Forall_forall in F.
      destruct (F b I) as (u & P & O). unfold accepted. now rewrite P, O. }
    assert (S : survivors URL_parse bindings = []).
    { clear A. induction F as [|b l (u & P & O) F IH]; [reflexivity|].
      unfold survivors. cbn [flat_map]. fold (survivors URL_parse l).
      unfold survivor. now rewrite P, O, IH. }
    now rewrite A, S.
Qed.

End RunProperties.

(** X7. Whatever the inputs, the handler schedules at most one redirect,
    and only when the user did not navigate back and the response was a
    success; the delay is 0 or 1000; and the target is the parsed URL of
    the first row of the response that is not skipped, never an onion
    host. *)
Theorem onLoad_redirects_only_to_first_surviving_url
  (BASE_HOST : string) (URL_parse : string -> option URL)
  (host : string) (fetched : Fetched) (navigatedBack : bool)
  (target : option URL) (delay : nat) :
  In (target, delay)
     (scheduled (fst (onLoad BASE_HOST URL_parse host fetched navigatedBack))) ->
  navigatedBack = false /\
  scheduled (fst (onLoad BASE_HOST URL_parse host fetched navigatedBack)) = [(target, delay)] /\
  (delay = 0 \/ delay = 1000) /\
  exists bindings skipped binding later websiteUrl,
    fetched = Response true bindings /\
    bindings = (skipped ++ binding :: later)%list /\
    Forall (fun skippedRow => survivor URL_parse skippedRow = None) skipped /\
    URL_parse (website_value binding) = Some websiteUrl /\
    isOnion websiteUrl = false /\
    target = Some websiteUrl.
Proof.
  destruct (onLoad_paths BASE_HOST URL_parse host fetched navigatedBack)
    as [[_ ->]|[[_ ->]|[[_ ->]|(bindings & results & shown & -> & T & N & R & H)]]];
    try (intros []).
  destruct H as [[_ ->]|[Shaped ->]]; cbn [fst].
  - rewrite <- (app_nil_r shown), scheduled_found by exact R. intros [].
  - rewrite scheduled_found by exact R.
    destruct navigatedBack; [intros []|]. intros [[= <- <-]|[]].
    split; [reflexivity|]. split; [reflexivity|]. split.
    + unfold prepareRequest. destruct (isLookup _); [now left | now right].
    + assert (I : Forall (fun entry : string * Entity => Obj.isArrayIndex (fst entry) = false)
                         results).
      { eapply Forall_impl; [|exact Shaped].
        intros entry P. exact (proj1 (generatePermalink_ordinary BASE_HOST (fst entry) P)). }
      rewrite transformSparqlResponse_entityMap in T.
      destruct (forallb (accepted URL_parse) bindings); [|discriminate].
      destruct (survivors URL_parse bindings) as [|first rows] eqn:S; injection T as <-;
        [now destruct N|].
      destruct (survivors_first URL_parse bindings first rows S)
        as (skipped & later & E & F & P & O).
      destruct (@entityMap_first_entry first rows I) as (item & ds & others & _ & _ & G).
      exists bindings, skipped, (fst first), later, (snd first).
      repeat (split; [reflexivity || assumption|]). exact G.
Qed.

Lemma onLoad_redirects_only_to_first_surviving_url_witness :
  let hidden := mkBinding "http://www.wikidata.org/entity/Q1" "one" "first"
                          "http://x.onion/" "" in
  let shown := mkBinding "http://www.wikidata.org/entity/Q1" "one" "first"
                         "http://a.example/" "" in
  scheduled (fst (onLoad "wikimark.net" basicURL "one.wikimark.net"
                         (Response true [hidden; shown]) false))
  = [(Some (mkURL "http://a.example/" "a.example"), 1000)].
Proof.
  intros hidden shown.
  exact (proj1 (proj2
    (onLoad_redirects_only_to_first_surviving_url "wikimark.net" basicURL "one.wikimark.net"
       (Response true [hidden; shown]) false
       (Some (mkURL "http://a.example/" "a.example")) 1000
       ltac:(vm_compute; now left)))).
Defined.

(** X8. The status that the handler leaves is [Redirecting...] exactly when
    it has scheduled a redirect, whatever the inputs and also when it
    throws. *)
Theorem onLoad_status_redirecting_iff_scheduled
  (BASE_HOST : string) (URL_parse : string -> option URL)
  (host : string) (fetched : Fetched) (navigatedBack : bool) :
  let trace := fst (onLoad BASE_HOST URL_parse host fetched navigatedBack) in
  finalStatus trace = Some "Redirecting..." <-> scheduled trace <> [].
Proof.
  intros trace. subst trace.
  destruct (onLoad_paths BASE_HOST URL_parse host fetched navigatedBack)
    as [[_ ->]|[[_ ->]|[[_ ->]|(bindings & results & shown & -> & T & N & R & H)]]];
    try (cbn; split; [discriminate | congruence]).
  destruct H as [[_ ->]|[_ ->]]; cbn [fst].
  - rewrite <- (app_nil_r shown), scheduled_found, finalStatus_found by exact R.
    cbn. split; [discriminate | congruence].
  - rewrite scheduled_found, finalStatus_found by exact R.
    destruct navigatedBack; cbn; split; congruence.
Qed.

(** X9. With the page's elements and the template engine in place, the
    handler throws in these cases only: the fetch is rejected; the body of
    the response cannot be read; the normalizer throws on some row, whose
    URL does not parse or which is not skipped and has an entity URI that
    names a member of [Object.prototype]; or the map is not empty and some
    entity URI in it does not have the shape [.../entity/Q<digits>].  When
    it throws, no redirect is scheduled and the status is still
    [Searching...] or, in the last case, [Found.]; a failure status is
    never shown. *)
Theorem onLoad_throws_iff
  (BASE_HOST : string) (URL_parse : string -> option URL)
  (host : string) (fetched : Fetched) (navigatedBack : bool) :
  let outcome := onLoad BASE_HOST URL_parse host fetched navigatedBack in
  (snd outcome = None <->
   fetched = Rejected \/ fetched = Unreadable \/
   exists bindings,
     fetched = Response true bindings /\
     ((exists binding,
         In binding bindings /\
         (URL_parse (website_value binding) = None \/
          exists websiteUrl,
            URL_parse (website_value binding) = Some websiteUrl /\
            isOnion websiteUrl = false /\
            Obj.inherited (item_value binding) = true)) \/
      exists results,
        transformSparqlResponse URL_parse bindings = Some results /\
        Exists (fun entry => forall qid, ~ isEntityUri (fst entry) qid) results)) /\
  (snd outcome = None ->
   scheduled (fst outcome) = [] /\
   (finalStatus (fst outcome) = Some "Searching..." \/
    finalStatus (fst outcome) = Some "Found.")).
Proof.
  intros outcome. subst outcome.
  assert (D : forall results : Entities,
             Exists (fun entry => generatePermalink BASE_HOST (fst entry) = None) results <->
             Exists (fun entry => forall qid, ~ isEntityUri (fst entry) qid) results).
  { intros results. rewrite !Exists_exists.
    split; intros (entry & I & H); exists entry; (split; [exact I|]).
    - intros qid U. apply (proj2 (generatePermalink_defined BASE_HOST (fst entry)));
        [now exists qid | exact H].
    - now apply generatePermalink_None. }
  assert (A : forall bindings,
             transformSparqlResponse URL_parse bindings = None <->
             exists binding,
               In binding bindings /\
               (URL_parse (website_value binding) = None \/
                exists websiteUrl,
                  URL_parse (website_value binding) = Some websiteUrl /\
                  isOnion websiteUrl = false /\
                  Obj.inherited (item_value binding) = true)).
  { intros bindings. rewrite transformSparqlResponse_None.
    split; intros (b & I & N); exists b; (split; [assumption|]).
    - unfold accepted in N. destruct (URL_parse (website_value b)) as [u|]; [|now left].
      right. exists u. apply orb_false_iff in N. destruct N as [N1 N2].
      apply negb_false_iff in N2. now repeat split.
    - unfold accepted. destruct N as [->|(u & -> & -> & ->)]; reflexivity. }
  destruct (onLoad_paths BASE_HOST URL_parse host fetched navigatedBack)
    as [[C ->]|[[(bindings & ->) ->]|[[(bindings & -> & T) ->]
       |(bindings & results & shown & -> & T & N & R & H)]]]; cbn [fst snd].
  - split; [|intros _; split; [reflexivity | now left]].
    split; [intros _|reflexivity].
    destruct C as [->|[->|(bindings & -> & T)]]; [now left | right; now left |].
    right. right. exists bindings. split; [reflexivity|]. left.
    now apply A.
  - split; [|discriminate]. split; [discriminate|].
    intros [C|[C|(b & C & _)]]; discriminate C.
  - split; [|discriminate]. split; [discriminate|].
    intros [C|[C|(b & [= <-] & [C|(results & T' & X)])]];
      [discriminate C | discriminate C | |].
    + apply A in C. congruence.
    + rewrite T in T'. injection T' as <-. inversion X.
  - destruct H as [[X ->]|[F ->]]; cbn [fst snd].
    + split.
      * split; [intros _|reflexivity]. right. right. exists bindings. split; [reflexivity|].
        right. exists results. split; [exact T | now apply D].
      * intros _. rewrite <- (app_nil_r shown), scheduled_found, finalStatus_found by exact R.
        split; [reflexivity | now right].
    + split; [|discriminate]. split; [discriminate|].
      intros [C|[C|(b & [= <-] & [C|(results' & T' & X)])]];
        [discriminate C | discriminate C | |].
      * apply A in C. congruence.
      * rewrite T in T'. injection T' as <-. apply D in X.
        rewrite Forall_forall in F. rewrite Exists_exists in X.
        destruct X as (entry & I & P). destruct (F entry I P).
Qed.

(** X10. The handler ends with the status [Not found.] exactly when the
    response is a success and every row in it (possibly none) has a URL
    that parses to an onion host. *)
Theorem onLoad_not_found_iff_all_onion
  (BASE_HOST : string) (URL_parse : string -> option URL)
  (host : string) (fetched : Fetched) (navigatedBack : bool) :
  finalStatus (fst (onLoad BASE_HOST URL_parse host fetched navigatedBack))
  = Some "Not found." <->
  exists bindings,
    fetched = Response true bindings /\
    Forall (fun binding => exists websiteUrl,
              URL_parse (website_value binding) = Some websiteUrl /\
              isOnion websiteUrl = true) bindings.
Proof.
  destruct (onLoad_paths BASE_HOST URL_parse host fetched navigatedBack)
    as [[C ->]|[[(bindings & ->) ->]|[[(bindings & -> & T) ->]
       |(bindings & results & shown & -> & T & N & R & H)]]]; cbn [fst].
  - split; [discriminate|]. intros (bindings & -> & F).
    apply transformSparqlResponse_nil in F.
    destruct C as [C|[C|(b & [= <-] & T)]]; [discriminate C | discriminate C | congruence].
  - split; [discriminate|]. intros (b & C & _). discriminate C.
  - split; [intros _|reflexivity]. exists bindings. split; [reflexivity|].
    now apply transformSparqlResponse_nil.
  - assert (S : finalStatus (fst (onLoad BASE_HOST URL_parse host (Response true bindings)
                                         navigatedBack)) <> Some "Not found.").
    { destruct H as [[_ ->]|[_ ->]]; cbn [fst].
      - rewrite <- (app_nil_r shown), finalStatus_found by exact R. discriminate.
      - rewrite finalStatus_found by exact R. destruct navigatedBack; discriminate. }
    split; [intros E; now destruct S|].
    intros (b & [= <-] & F). apply transformSparqlResponse_nil in F.
    rewrite T in F. injection F as ->. now destruct N.
Qed.

(* ================================================================== *)
(** * More about the result normalizer *)

Section NormalizerMore.

Import ObjFacts.

Lemma allDestinations_adjust (uri : string) (w : Website) (entities : Entities) :
  NoDup (Obj.names entities) -> Obj.has uri entities = true ->
  Permutation (allDestinations (Obj.adjust uri (pushed w) entities))
              (w :: allDestinations entities).
Proof.
  induction entities as [|[k e] entities IH]; [discriminate|].
  intros D H. inversion D as [|? ? NI D']; subst.
  unfold allDestinations, Obj.adjust. cbn [List.map flat_map fst snd].
  fold (Obj.adjust uri (pushed w) entities).
  fold (allDestinations (Obj.adjust uri (pushed w) entities)).
  fold (allDestinations entities).
  destruct (String.eqb_spec k uri) as [->|N].
  - rewrite (@adjust_absent Entity uri (pushed w) entities)
      by now apply has_false_names.
    cbn [snd websites pushed]. rewrite <- app_assoc. cbn [app].
    symmetry. apply Permutation_middle.
  - cbn [Obj.has] in H. apply String.eqb_neq in N. rewrite N in H. cbn [orb] in H.
    cbn [snd]. etransitivity; [apply Permutation_app_head, (IH D' H)|].
    symmetry. apply Permutation_middle.
Qed.

Lemma allDestinations_entityMap (rows : list (Binding * URL)) :
  Permutation (allDestinations (entityMap rows)) (List.map destination rows).
Proof.
  induction rows as [|row rows IH] using rev_ind; [constructor|].
  rewrite entityMap_snoc, map_app. unfold allDestinations at 1. rewrite flat_map_app.
  fold (allDestinations (Obj.adjust (entityOf row) (pushed (destination row)) (entityMap rows))).
  destruct (existsb (sameEntity (entityOf row)) rows) eqn:E.
  - cbn [flat_map]. rewrite app_nil_r.
    etransitivity;
      [apply allDestinations_adjust; [apply NoDup_names_entityMap | now rewrite has_entityMap]|].
    etransitivity; [apply perm_skip, IH|]. apply Permutation_cons_append.
  - rewrite (@adjust_absent Entity _ _ (entityMap rows)) by now rewrite has_entityMap.
    cbn [flat_map snd websites app List.map]. now apply Permutation_app_tail.
Qed.

Variable URL_parse : string -> option URL.

(** ** Growing maps *)

Lemma names_set (key : string) (e : Entity) (entities : Entities) :
  Obj.names (Obj.set key e entities)
  = if Obj.has key entities then Obj.names entities else (Obj.names entities ++ [key])%list.
Proof.
  induction entities as [|[k e0] entities IH]; [reflexivity|].
  cbn [Obj.set Obj.has]. destruct (k =? key) eqn:E; cbn [orb]; [reflexivity|].
  unfold Obj.names in *. cbn [List.map fst]. rewrite IH.
  now destruct (Obj.has key entities).
Qed.

Lemma get_set (key uri : string) (e : Entity) (entities : Entities) :
  Obj.get uri (Obj.set key e entities)
  = if key =? uri then Some e else Obj.get uri entities.
Proof.
  induction entities as [|[k e0] entities IH]; cbn [Obj.set Obj.get]; [reflexivity|].
  destruct (String.eqb_spec k key) as [->|N]; cbn [Obj.get].
  - now destruct (key =? uri).
  - rewrite IH. destruct (String.eqb_spec k uri) as [->|]; [|reflexivity].
    apply String.eqb_neq in N. rewrite String.eqb_sym in N. now rewrite N.
Qed.

Lemma grownFrom_refl (entities : Entities) : grownFrom entities entities.
Proof.
  split; [exists []; now rewrite app_nil_r|].
  intros uri e G. exists e, []. now rewrite app_nil_r.
Qed.

Lemma grownFrom_trans (a b c : Entities) : grownFrom a b -> grownFrom b c -> grownFrom a c.
Proof.
  intros [(m1 & K1) G1] [(m2 & K2) G2]. split.
  - exists (m1 ++ m2)%list. now rewrite K2, K1, app_assoc.
  - intros uri e G. destruct (G1 uri e G) as (e1 & w1 & H1 & L1 & D1 & W1).
    destruct (G2 uri e1 H1) as (e2 & w2 & H2 & L2 & D2 & W2).
    exists e2, (w1 ++ w2)%list. rewrite W2, W1, app_assoc. repeat split; congruence.
Qed.

Lemma transformBinding_grows (entities entities' : Entities) (binding : Binding) :
  transformBinding URL_parse entities binding = Some entities' ->
  grownFrom entities entities'.
Proof.
  unfold transformBinding, pushWebsite.
  destruct (URL_parse (website_value binding)) as [u|]; [|discriminate].
  destruct (isOnion u); [intros [= <-]; apply grownFrom_refl|].
  set (w := mkWebsite u (parseRank (rank_value binding))).
  set (key := item_value binding).
  unfold Obj.isIn.
  destruct (Obj.has key entities) eqn:H; cbn [negb orb];
    [|destruct (Obj.inherited key); cbn [negb];
      [apply get_None in H; rewrite H; discriminate|]].
  - destruct (Obj.get key entities) as [e0|] eqn:G; [|discriminate].
    intros [= <-]. split.
    + exists []. now rewrite names_set, H, app_nil_r.
    + intros uri e Gu. rewrite get_set.
      destruct (String.eqb_spec key uri) as [<-|]; [|exists e, []; now rewrite app_nil_r].
      rewrite G in Gu. injection Gu as <-. exists (pushed w e0), [w]. now repeat split.
  - rewrite get_set, String.eqb_refl. intros [= <-]. split.
    + exists [key]. rewrite !names_set, H.
      assert (H' : Obj.has key (Obj.set key
                      (mkEntity (itemLabel_value binding) (itemDescription_value binding) [])
                      entities) = true).
      { apply has_get. rewrite get_set_same. discriminate. }
      now rewrite H'.
    + intros uri e Gu. rewrite !get_set.
      destruct (String.eqb_spec key uri) as [<-|].
      * apply get_None in H. congruence.
      * exists e, []. now rewrite app_nil_r.
Qed.

Lemma transformBindings_grows (bindings : list Binding) :
  forall entities entities',
    transformBindings URL_parse entities bindings = Some entities' ->
    grownFrom entities entities'.
Proof.
  induction bindings as [|b bindings IH]; intros entities entities'; cbn [transformBindings].
  - intros [= <-]. apply grownFrom_refl.
  - destruct (transformBinding URL_parse entities b) as [e1|] eqn:T; [|discriminate].
    intros H. exact (grownFrom_trans _ _ _ (transformBinding_grows _ _ _ T) (IH _ _ H)).
Qed.

Lemma transformBindings_app (l1 l2 : list Binding) :
  forall entities,
    transformBindings URL_parse entities (l1 ++ l2)
    = match transformBindings URL_parse entities l1 with
      | Some entities' => transformBindings URL_parse entities' l2
      | None => None
      end.
Proof.
  induction l1 as [|b l1 IH]; intros entities; cbn [app transformBindings]; [reflexivity|].
  destruct (transformBinding URL_parse entities b); [apply IH | reflexivity].
Qed.

(** ** Rank codes *)

Lemma survivors_withRankCode (code : string -> string) (bindings : list Binding) :
  survivors URL_parse (List.map (withRankCode code) bindings)
  = List.map (fun row => (withRankCode code (fst row), snd row))
             (survivors URL_parse bindings).
Proof.
  induction bindings as [|b l IH]; [reflexivity|].
  unfold survivors. cbn [List.map flat_map].
  fold (survivors URL_parse (List.map (withRankCode code) l)).
  fold (survivors URL_parse l). rewrite IH, map_app. f_equal.
  unfold survivor. cbn [withRankCode website_value].
  destruct (URL_parse (website_value b)) as [u|]; [|reflexivity].
  now destruct (isOnion u).
Qed.

Lemma accepted_withRankCode (code : string -> string) (bindings : list Binding) :
  forallb (accepted URL_parse) (List.map (withRankCode code) bindings)
  = forallb (accepted URL_parse) bindings.
Proof.
  induction bindings as [|b l IH]; [reflexivity|].
  cbn [List.map forallb]. now rewrite IH.
Qed.

End NormalizerMore.

Lemma filter_map_commute {A B} (f : A -> B) (p : B -> bool) (l : list A) :
  filter p (List.map f l) = List.map f (filter (fun a => p (f a)) l).
Proof.
  induction l as [|a l IH]; [reflexivity|].
  cbn [List.map filter]. rewrite IH. now destruct (p (f a)).
Qed.

Lemma firstSeen_map (f : Binding * URL -> Binding * URL) (rows : list (Binding * URL)) :
  (forall row, entityOf (f row) = entityOf row) ->
  firstSeen (List.map f rows) = List.map f (firstSeen rows).
Proof.
  intros E. induction rows as [|row rows IH]; [reflexivity|].
  cbn [List.map firstSeen]. rewrite IH, filter_map_commute. f_equal. f_equal.
  apply filter_ext. intros r. unfold sameEntity. now rewrite !E.
Qed.

Lemma withoutRanks_entityMap (code : string -> string) (rows : list (Binding * URL)) :
  withoutRanks (entityMap (List.map (fun row => (withRankCode code (fst row), snd row)) rows))
  = withoutRanks (entityMap rows).
Proof.
  unfold withoutRanks, entityMap.
  rewrite firstSeen_map by reflexivity. rewrite !map_map.
  apply map_ext. intros row. cbn [fst snd label description websites].
  rewrite filter_map_commute, !map_map. reflexivity.
Qed.

Lemma redirectTarget_withoutRanks (r1 r2 : Entities) :
  withoutRanks r1 = withoutRanks r2 -> redirectTarget r1 = redirectTarget r2.
Proof.
  assert (E : forall r : Entities, Obj.entries (withoutRanks r) = withoutRanks (Obj.entries r)).
  { intros r.
    exact (ObjFacts.entries_map
             (fun e : Entity => (label e, description e, List.map url (websites e))) r). }
  intros W. apply (f_equal (@Obj.entries _)) in W. rewrite !E in W. revert W.
  unfold withoutRanks, redirectTarget.
  destruct (Obj.entries r1) as [|[k1 e1] l1], (Obj.entries r2) as [|[k2 e2] l2];
    cbn; try discriminate; [reflexivity|].
  intros [= _ _ _ W _].
  destruct (websites e1), (websites e2); cbn in W; try discriminate; [reflexivity|].
  now injection W as -> _.
Qed.

(** X11. The destinations of the returned map are, up to their grouping by
    entity, exactly the destinations of the surviving rows: none is lost,
    none is added and a repeated row is kept as often as it occurs. *)
Theorem transformSparqlResponse_keeps_every_destination
  (URL_parse : string -> option URL) (bindings : list Binding) (results : Entities) :
  transformSparqlResponse URL_parse bindings = Some results ->
  Permutation (allDestinations results)
              (List.map destination (survivors URL_parse bindings)) /\
  List.length (allDestinations results) = List.length (survivors URL_parse bindings).
Proof.
  rewrite transformSparqlResponse_entityMap.
  destruct (forallb (accepted URL_parse) bindings); [|discriminate]. intros [= <-].
  pose proof (allDestinations_entityMap (survivors URL_parse bindings)) as P.
  split; [exact P|]. rewrite (Permutation_length P). apply length_map.
Qed.

Lemma transformSparqlResponse_keeps_every_destination_witness :
  let row := mkBinding "E1" "one" "first" "http://a.example/" "" in
  let w := mkWebsite (mkURL "http://a.example/" "a.example") None in
  Permutation (allDestinations [("E1", mkEntity "one" "first" [w; w])]) [w; w].
Proof.
  intros row w.
  exact (proj1 (transformSparqlResponse_keeps_every_destination basicURL [row; row]
                  [("E1", mkEntity "one" "first" [w; w])] eq_refl)).
Defined.

(** X12. The rank codes of the rows do not influence anything but the rank
    recorded with each destination: with any other rank codes the
    normalizer returns or throws alike, and the map has the same
    entities in the same order with the same labels, descriptions and
    URLs; in particular the redirect goes to the same URL. *)
Theorem transformSparqlResponse_ignores_rank_codes
  (URL_parse : string -> option URL) (code : string -> string) (bindings : list Binding) :
  option_map withoutRanks
    (transformSparqlResponse URL_parse (List.map (withRankCode code) bindings))
  = option_map withoutRanks (transformSparqlResponse URL_parse bindings) /\
  option_map redirectTarget
    (transformSparqlResponse URL_parse (List.map (withRankCode code) bindings))
  = option_map redirectTarget (transformSparqlResponse URL_parse bindings).
Proof.
  rewrite !transformSparqlResponse_entityMap, accepted_withRankCode, survivors_withRankCode.
  destruct (forallb (accepted URL_parse) bindings); [|now split]. cbn [option_map].
  pose proof (withoutRanks_entityMap code (survivors URL_parse bindings)) as W.
  split; [now rewrite W|]. f_equal. now apply redirectTarget_withoutRanks.
Qed.

(** X13. Rows that come later only add to the map: every entity of the map
    for the beginning of a response is an entity of the map for the whole
    response, with the same label and description and with its
    destinations followed by the new ones; and where no entity URI of the
    larger map is an array index, its entries start with the entities of
    the smaller map, in the same order. *)
Theorem transformSparqlResponse_grows_with_rows
  (URL_parse : string -> option URL) (bindings more : list Binding)
  (earlier later : Entities) :
  transformSparqlResponse URL_parse bindings = Some earlier ->
  transformSparqlResponse URL_parse (bindings ++ more) = Some later ->
  (forall uri e,
     Obj.read uri earlier = Obj.Own e ->
     exists e' added,
       Obj.read uri later = Obj.Own e' /\
       label e' = label e /\ description e' = description e /\
       websites e' = (websites e ++ added)%list) /\
  (Forall (fun entry : string * Entity => Obj.isArrayIndex (fst entry) = false) later ->
   exists new,
     List.map fst (Obj.entries later) = (List.map fst (Obj.entries earlier) ++ new)%list).
Proof.
  unfold transformSparqlResponse. rewrite transformBindings_app. intros -> T.
  destruct (transformBindings_grows _ _ _ _ T) as [(new & K) G]. split.
  - intros uri e R. apply ObjFacts.read_Own in R.
    destruct (G uri e R) as (e' & added & R' & H). exists e', added.
    split; [now apply ObjFacts.read_Own | exact H].
  - intros F. exists new. unfold Obj.names in K.
    assert (F' : Forall (fun key => Obj.isArrayIndex key = false) (List.map fst earlier)).
    { pose proof (proj2 (Forall_map fst (fun key => Obj.isArrayIndex key = false) later) F)
        as F'.
      rewrite K in F'. now apply Forall_app in F'. }
    rewrite (ObjFacts.entries_named F), (@ObjFacts.entries_named _ earlier);
      [exact K | now apply Forall_map in F'].
Qed.

Lemma transformSparqlResponse_grows_with_rows_witness :
  let a := mkBinding "E1" "one" "first" "http://a.example/" "" in
  let b := mkBinding "E2" "two" "second" "http://b.example/" "" in
  let c := mkBinding "E1" "uno" "primero" "http://c.example/" "" in
  let later :=
    [ ("E1", mkEntity "one" "first" [mkWebsite (mkURL "http://a.example/" "a.example") None;
                                     mkWebsite (mkURL "http://c.example/" "c.example") None]);
      ("E2", mkEntity "two" "second"
               [mkWebsite (mkURL "http://b.example/" "b.example") None]) ] in
  exists new, List.map fst (Obj.entries later) = (["E1"] ++ new)%list.
Proof.
  intros a b c later.
  exact (proj2 (transformSparqlResponse_grows_with_rows basicURL [a] [b; c] _ later
                  eq_refl eq_refl)
               ltac:(repeat constructor)).
Defined.

(* ================================================================== *)
(** * More about the queries *)

Lemma toUpperCase_toLowerCase (s : string) :
  Str.isAscii s = true -> Str.toUpperCase (Str.toLowerCase s) = Str.toUpperCase s.
Proof.
  unfold Str.isAscii, Str.toUpperCase, Str.toLowerCase.
  induction s as [|c s IH]; simpl; [reflexivity|].
  rewrite andb_true_iff. intros [_ A]. rewrite (IH A). f_equal.
  destruct c as [[] [] [] [] [] [] [] []]; reflexivity.
Qed.

Lemma toUpperCase_idempotent (s : string) :
  Str.isAscii s = true -> Str.toUpperCase (Str.toUpperCase s) = Str.toUpperCase s.
Proof.
  unfold Str.isAscii, Str.toUpperCase.
  induction s as [|c s IH]; simpl; [reflexivity|].
  rewrite andb_true_iff. intros [_ A]. rewrite (IH A). f_equal.
  destruct c as [[] [] [] [] [] [] [] []]; reflexivity.
Qed.

(** X14. The search query determines the term: two terms give the same
    query only if they are the same term, character for character. *)
Theorem prepareSparqlSearchQuery_injective (a b : string) :
  prepareSparqlSearchQuery a = prepareSparqlSearchQuery b <-> a = b.
Proof.
  split; [|now intros ->].
  rewrite !prepareSparqlSearchQuery_skeleton. intros H.
  apply StrFacts.append_inv_head in H. now apply StrFacts.append_inv_tail in H.
Qed.

(** X15. For identifiers made of ASCII characters, the lookup query depends
    on the identifier only through its upper case: two such identifiers
    give the same query exactly when they are equal up to the case of
    their letters, and lower-casing or upper-casing an identifier does not
    change its query. *)
Theorem prepareSparqlLookupQuery_case_insensitive (a b : string) :
  Str.isAscii a = true -> Str.isAscii b = true ->
  (prepareSparqlLookupQuery a = prepareSparqlLookupQuery b <->
   Str.toUpperCase a = Str.toUpperCase b) /\
  prepareSparqlLookupQuery (Str.toLowerCase a) = prepareSparqlLookupQuery a /\
  prepareSparqlLookupQuery (Str.toUpperCase a) = prepareSparqlLookupQuery a.
Proof.
  intros A B. rewrite !prepareSparqlLookupQuery_skeleton. split; [split|split].
  - intros H. apply StrFacts.append_inv_head in H. now apply StrFacts.append_inv_tail in H.
  - now intros ->.
  - now rewrite (toUpperCase_toLowerCase _ A).
  - now rewrite (toUpperCase_idempotent _ A).
Qed.

Lemma prepareSparqlLookupQuery_case_insensitive_witness :
  prepareSparqlLookupQuery "q42" = prepareSparqlLookupQuery "Q42".
Proof.
  apply (prepareSparqlLookupQuery_case_insensitive "q42" "Q42"); reflexivity.
Defined.

(** X16. A lookup query is never a search query: whatever the identifier
    and the term, the two texts differ. *)
Theorem lookup_query_is_not_search_query (id term : string) :
  prepareSparqlLookupQuery id <> prepareSparqlSearchQuery term.
Proof.
  rewrite prepareSparqlLookupQuery_skeleton, prepareSparqlSearchQuery_skeleton.
  intros H. cbn in H. discriminate H.
Qed.

(* ================================================================== *)
(** * Back navigation *)

Lemma nth_error_last {A} (l : list A) (x : A) :
  nth_error (l ++ [x]) (List.length (l ++ [x]) - 1) = Some x.
Proof.
  rewrite length_app. cbn [List.length].
  replace (List.length l + 1 - 1) with (List.length l) by lia.
  rewrite nth_error_app2 by lia. now rewrite Nat.sub_diag.
Qed.

(** X17. [didNavigateBack] looks at the last navigation entry only: it
    answers yes exactly when there is a last entry and its type is
    [back_forward]; with no entry at all it answers no. *)
Theorem didNavigateBack_iff_last_entry (entries : list string) :
  didNavigateBack entries = true <-> exists earlier, entries = (earlier ++ ["back_forward"])%list.
Proof.
  unfold didNavigateBack. split.
  - destruct entries as [|e entries] using rev_ind; [discriminate|].
    rewrite nth_error_last, andb_true_iff, String.eqb_eq.
    intros [_ ->]. now exists entries.
  - intros (earlier & ->). rewrite nth_error_last, length_app. cbn [List.length].
    rewrite String.eqb_refl, andb_true_r. apply Nat.ltb_lt. lia.
Qed.

(* ================================================================== *)
(** * More about the handler and the permalinks *)

Lemma requests_results (trace : list Event) :
  forallb isResultEvent trace = true -> requests trace = [].
Proof.
  induction trace as [|e trace IH]; simpl; [reflexivity|].
  rewrite andb_true_iff. intros [E H]. rewrite (IH H). now destruct e.
Qed.

Lemma In_results (e : Event) (trace : list Event) :
  forallb isResultEvent trace = true -> In e trace -> isResultEvent e = true.
Proof. intros R I. rewrite forallb_forall in R. now apply R. Qed.

(** X18. Every run of the handler sends exactly one query to the endpoint,
    whatever happens afterwards; on a host made of a non-empty subdomain, a
    dot and the base host it is the query for the subdomain as token. *)
Theorem onLoad_sends_one_request
  (BASE_HOST : string) (URL_parse : string -> option URL)
  (host : string) (fetched : Fetched) (navigatedBack : bool) :
  requests (fst (onLoad BASE_HOST URL_parse host fetched navigatedBack))
  = [fst (prepareRequest (removeSuffix host ("." ++ BASE_HOST)))] /\
  forall sub,
    sub <> "" -> host = sub ++ "." ++ BASE_HOST ->
    requests (fst (onLoad BASE_HOST URL_parse host fetched navigatedBack))
    = [fst (prepareRequest sub)].
Proof.
  assert (Q : requests (fst (onLoad BASE_HOST URL_parse host fetched navigatedBack))
              = [fst (prepareRequest (removeSuffix host ("." ++ BASE_HOST)))]).
  { destruct (onLoad_paths BASE_HOST URL_parse host fetched navigatedBack)
      as [[_ ->]|[[_ ->]|[[_ ->]|(bindings & results & shown & -> & T & N & R & H)]]];
      try reflexivity.
    destruct H as [[_ ->]|[_ ->]]; cbn [fst]; unfold requests;
      rewrite !flat_map_app; fold (requests shown); rewrite (requests_results _ R);
      [reflexivity|]. now destruct navigatedBack. }
  split; [exact Q|].
  intros sub N ->. rewrite Q. now rewrite RemoveSuffix.removeSuffix_append.
Qed.

(** X19. The progress bar is set to 100 exactly when the response is a
    success and the normalizer returns a map, empty or not; after a
    rejected fetch, a failure response or an unparsable URL it is never
    set. *)
Theorem onLoad_progress_iff_normalized
  (BASE_HOST : string) (URL_parse : string -> option URL)
  (host : string) (fetched : Fetched) (navigatedBack : bool) :
  In (ProgressValue 100) (fst (onLoad BASE_HOST URL_parse host fetched navigatedBack)) <->
  exists bindings results,
    fetched = Response true bindings /\
    transformSparqlResponse URL_parse bindings = Some results.
Proof.
  destruct (onLoad_paths BASE_HOST URL_parse host fetched navigatedBack)
    as [[C ->]|[[(bindings & ->) ->]|[[(bindings & -> & T) ->]
       |(bindings & results & shown & -> & T & N & R & H)]]]; cbn [fst].
  - split.
    + intros [I|[I|[]]]; discriminate I.
    + intros (bindings & results & -> & T).
      destruct C as [C|[C|(b & [= <-] & T')]]; [discriminate C | discriminate C | congruence].
  - split.
    + intros [I|[I|[I|[I|[]]]]]; discriminate I.
    + intros (b & r & C & _). discriminate C.
  - split; [intros _; now exists bindings, [] | intros _; cbn; tauto].
  - split; [intros _; now exists bindings, results|]. intros _.
    destruct H as [[_ ->]|[_ ->]]; cbn; tauto.
Qed.

(** X20. Two entity URIs have the same permalink exactly when they have
    the same identifier, whatever comes before [/entity/] in them. *)
Theorem generatePermalink_same_iff_same_id (BASE_HOST uri1 qid1 uri2 qid2 : string) :
  isEntityUri uri1 qid1 -> isEntityUri uri2 qid2 ->
  (generatePermalink BASE_HOST uri1 = generatePermalink BASE_HOST uri2 <-> qid1 = qid2).
Proof.
  intros U1 U2.
  rewrite (@generatePermalink_Some BASE_HOST uri1 qid1 U1),
          (@generatePermalink_Some BASE_HOST uri2 qid2 U2).
  split; [|now intros ->].
  intros [= H]. apply StrFacts.append_inv_tail in H.
  destruct U1 as (_ & d1 & _ & -> & _ & F1 & _), U2 as (_ & d2 & _ & -> & _ & F2 & _).
  unfold Str.toLowerCase in H. cbn [Str.map] in H.
  fold (Str.toLowerCase d1) in H. fold (Str.toLowerCase d2) in H.
  rewrite (StrFacts.toLowerCase_digits _ F1), (StrFacts.toLowerCase_digits _ F2) in H.
  now injection H as ->.
Qed.

Lemma generatePermalink_same_iff_same_id_witness :
  generatePermalink "wikimark.net" "http://www.wikidata.org/entity/Q42"
  = generatePermalink "wikimark.net" "https://test.wikidata.org/entity/Q42".
Proof.
  apply (generatePermalink_same_iff_same_id "wikimark.net"
           "http://www.wikidata.org/entity/Q42" "Q42"
           "https://test.wikidata.org/entity/Q42" "Q42").
  - exists "http://www.wikidata.org", "42". repeat split. discriminate.
  - exists "https://test.wikidata.org", "42". repeat split. discriminate.
  - reflexivity.
Defined.
